(** * Panda CSS: the style hashing engine and the incremental builder

    A shallow embedding of

    - [packages/generator/src/engines/hash-factory.ts] (class [HashFactory],
      [hashStyleEntry], [getPreviousCondition], [getResolvedCondition],
      [filterProps]), and
    - [packages/node/src/builder.ts] (class [Builder] with the module-level
      [configCache] and [contentFilesCache]),

    together with the properties stated about them in the specification.

    Conventions of the embedding.

    - A JavaScript string is a [string]; the separators are ASCII, so that
      splitting on bytes and splitting on UTF-16 code units agree.
    - A JavaScript value is a [value]; numbers are restricted to integers
      ([Z]) of magnitude below 10^21, which [String(n)] prints in decimal;
      larger and fractional numbers are outside the embedding.
    - A JavaScript object is an association list with distinct keys in
      insertion order ([obj_set] keeps the position of a key that is already
      present, as an assignment [o[k] = v] does).  The reordering of
      integer-like keys that engines perform is not modelled.
    - A [Set<string>] is a [gset string], a [Map<string, V>] a
      [gmap string V]. *)

From Stdlib Require Import ZArith Lia.
From stdpp Require Import base option list strings pretty gmap fin_maps fin_sets.

#[local] Set Warnings "-register-all,-clear-no-such-hyp".

(** ** JavaScript strings *)

Module JsString.

(** [s.startsWith(p)] *)
Fixpoint starts_with (p s : string) : bool :=
  match p, s with
  | EmptyString, _ => true
  | String a p', String b s' => if Ascii.eqb a b then starts_with p' s' else false
  | String _ _, EmptyString => false
  end.

(** The scanner behind [s.split(sep)] for a non-empty [sep]: [skip] counts
    the characters of a separator occurrence still to be passed over, [cur]
    is the segment being read. *)
Fixpoint split_go (sep : string) (skip : nat) (cur s : string) : list string :=
  match s with
  | EmptyString => [cur]
  | String c s' =>
      match skip with
      | S k => split_go sep k cur s'
      | O =>
          if starts_with sep s
          then cur :: split_go sep (String.length sep - 1) EmptyString s'
          else split_go sep 0 (cur +:+ String c EmptyString) s'
      end
  end.

(** [s.split(sep)], [sep] non-empty. *)
Definition split (sep s : string) : list string := split_go sep 0 EmptyString s.

(** [parts.join(sep)] *)
Fixpoint join (sep : string) (parts : list string) : string :=
  match parts with
  | [] => EmptyString
  | [p] => p
  | p :: rest => p +:+ sep +:+ join sep rest
  end.

(** [s.slice(n)] *)
Fixpoint skip_chars (n : nat) (s : string) : string :=
  match n, s with
  | O, _ => s
  | S k, String _ s' => skip_chars k s'
  | S _, EmptyString => EmptyString
  end.

(** [s.replace(pat, '')] with a string pattern: the first occurrence of
    [pat] is removed, a string without occurrence is returned as it is. *)
Fixpoint remove_first (pat s : string) : string :=
  if starts_with pat s then skip_chars (String.length pat) s
  else match s with
       | EmptyString => EmptyString
       | String c s' => String c (remove_first pat s')
       end.

(** A string in a boolean position: the empty string is falsy. *)
Definition nonempty (s : string) : bool :=
  match s with EmptyString => false | String _ _ => true end.

(** [arr.at(-2) ?? ''] *)
Definition at_minus_2 (l : list string) : string :=
  match rev l with
  | _ :: x :: _ => x
  | _ => EmptyString
  end.

End JsString.

(** ** JavaScript values and objects *)

Inductive value : Type :=
| VUndef
| VNull
| VBool (b : bool)
| VNum (n : Z)
| VStr (s : string)
| VArr (items : list value)
| VObj (fields : list (string * value)).

(** A [Dict]: an object given by its own enumerable properties in order. *)
Abbreviation Dict := (list (string * value)).

Module JsValue.

(** Modelled from the spec: [isObjectOrArray] of the shared package is not
    among the sources; it tells a value that "is itself an object" (or an
    array) from a leaf. *)
Definition isObjectOrArray (v : value) : bool :=
  match v with VArr _ | VObj _ => true | _ => false end.

(** A value in a boolean position. *)
Definition truthy (v : value) : bool :=
  match v with
  | VUndef | VNull => false
  | VBool b => b
  | VNum n => negb (Z.eqb n 0)
  | VStr s => JsString.nonempty s
  | VArr _ | VObj _ => true
  end.

(** String coercion, as performed by a template literal [`${v}`].  An array
    joins the coercions of its elements with a comma, [null] and
    [undefined] elements giving the empty string. *)
Fixpoint to_string (v : value) : string :=
  match v with
  | VUndef => "undefined"
  | VNull => "null"
  | VBool true => "true"
  | VBool false => "false"
  | VNum n => pretty n
  | VStr s => s
  | VArr items =>
      JsString.join ","
        ((fix elems (l : list value) : list string :=
            match l with
            | [] => []
            | VUndef :: l' => EmptyString :: elems l'
            | VNull :: l' => EmptyString :: elems l'
            | x :: l' => to_string x :: elems l'
            end) items)
  | VObj _ => "[object Object]"
  end.

(** [o[k]] on a [Dict]; [None] stands for an absent property. *)
Fixpoint obj_get (k : string) (o : Dict) : option value :=
  match o with
  | [] => None
  | (k', v) :: o' => if String.eqb k k' then Some v else obj_get k o'
  end.

(** [o[k] = v]: an existing key keeps its position and takes the new value,
    a new key is appended. *)
Fixpoint obj_set (k : string) (v : value) (o : Dict) : Dict :=
  match o with
  | [] => [(k, v)]
  | (k', v') :: o' =>
      if String.eqb k k' then (k, v) :: o' else (k', v') :: obj_set k v o'
  end.

(** [Object.assign(target, source)] *)
Definition obj_assign (target source : Dict) : Dict :=
  fold_left (fun acc kv => obj_set kv.1 kv.2 acc) source target.

(** [Object.values(o)] *)
Definition obj_values (o : Dict) : list value := map snd o.

End JsValue.

(** ** Style entries and their hash ([hashStyleEntry]) *)

Module HashFactory.

Import JsString JsValue.

(** [HashFactory.separator] and [HashFactory.conditionSeparator] *)
Definition separator : string := "]___[".
Definition conditionSeparator : string := "<___>".

(** [StyleEntry]: [prop] and [value] are mandatory, the other fields
    optional ([None] is an absent field). *)
Record StyleEntry : Type := mkStyleEntry {
  prop : string;
  entry_value : value;
  cond : option string;
  recipe : option string;
  layer : option string;
  slot : option string
}.

(** [if (entry.f) parts.push(`f:${entry.f}`)]: an absent or empty field
    pushes nothing. *)
Definition part (label : string) (field : option string) : list string :=
  match field with
  | Some s => if nonempty s then [label +:+ s] else []
  | None => []
  end.

Definition hashStyleEntry (entry : StyleEntry) : string :=
  let parts :=
    [prop entry +:+ separator +:+ "value:" +:+ to_string (entry_value entry)]
      ++ part "cond:" (cond entry)
      ++ part "recipe:" (recipe entry)
      ++ part "layer:" (layer entry)
      ++ part "slot:" (slot entry) in
  join separator parts.

(** [getPreviousCondition] *)
Definition getPreviousCondition (path : string) : string :=
  at_minus_2 (split conditionSeparator path).

(** Modelled from the spec: [filterBaseConditions] of the shared package is
    not among the sources; it "filters out segments that are placeholder
    base markers", the marker being the key [base] (as in the examples of
    the doc comment of [getResolvedCondition]). *)
Definition isBaseCondition (v : string) : bool := String.eqb v "base".

Definition filterBaseConditions (c : list string) : list string :=
  List.filter (fun v => negb (isBaseCondition v)) c.

(** [getResolvedCondition] *)
Definition getResolvedCondition (cond : string) (isCondition : string -> bool) : string :=
  if negb (nonempty cond) then EmptyString
  else
    let parts := split conditionSeparator cond in
    let first := hd EmptyString parts in
    let relevantParts := filterBaseConditions parts in
    let relevantParts :=
      if nonempty first && negb (isCondition first)
      then tl relevantParts
      else relevantParts in
    if negb (Nat.eqb (length parts) (length relevantParts))
    then join conditionSeparator relevantParts
    else cond.

(** *** The collector context

    [CollectorContext] is injected into the factory.  Of
    [conditions] the code uses [isCondition] and [breakpoints.keys], of
    [utility] the shorthand resolution (through [normalizeStyleObject]), of
    [recipes] [getConfig] and [getSlotKey], of [patterns] [getFnName] and
    [transform]. *)

Record CompoundVariant : Type := mkCompoundVariant { css : Dict }.

(** [RecipeConfig] and [SlotRecipeConfig], as far as the factory reads
    them.  For a slot recipe [base] and each [css] map a slot to its
    styles. *)
Record RecipeConfig : Type := mkRecipeConfig {
  defaultVariants : option Dict;
  base : option Dict;
  slots : list string;
  compoundVariants : option (list CompoundVariant)
}.

Record CollectorContext : Type := mkContext {
  isTemplateLiteralSyntax : bool;
  isValidProperty : string -> bool;
  isCondition : string -> bool;
  breakpoints_keys : list string;
  hasShorthand : bool;
  resolveShorthand : string -> string;
  getConfig : string -> option RecipeConfig;
  getSlotKey : string -> string -> string;
  getFnName : string -> string;
  transform : string -> Dict -> Dict
}.

(** Modelled from the spec: [toResponsiveObject] of the shared package is
    not among the sources; "a raw array value is converted into an explicit
    mapping from breakpoint name to array index value".  Elements that are
    [null] or [undefined] are left out; an index beyond the breakpoints
    reads the key [undefined]. *)
Fixpoint toResponsiveObject_from (values : list value) (bps : list string) (acc : Dict) : Dict :=
  match values with
  | [] => acc
  | current :: values' =>
      let key := hd "undefined" bps in
      let acc' :=
        match current with
        | VUndef | VNull => acc
        | _ => obj_set key current acc
        end in
      toResponsiveObject_from values' (tl bps) acc'
  end.

Definition toResponsiveObject (values : list value) (bps : list string) : value :=
  VObj (toResponsiveObject_from values bps []).

(** Modelled from the spec: [normalizeStyleObject] of the shared package is
    not among the sources; it is the "shorthand/array-to-responsive-object
    normalization" ([{ mx: 4 } => { marginX: 4 }] in the words of the
    factory): every key is replaced by the property it is a shorthand of,
    every array by its responsive object. *)
Definition normalizeKey (ctx : CollectorContext) (k : string) : string :=
  if hasShorthand ctx then resolveShorthand ctx k else k.

Fixpoint normalizeStyleObject (ctx : CollectorContext) (v : value) : value :=
  match v with
  | VObj fields =>
      VObj ((fix walk (fs : Dict) (result : Dict) : Dict :=
               match fs with
               | [] => result
               | (k, child) :: fs' =>
                   walk fs' (obj_set (normalizeKey ctx k) (normalizeStyleObject ctx child) result)
               end) fields [])
  | VArr items => toResponsiveObject items (breakpoints_keys ctx)
  | _ => v
  end.

(** Modelled from the spec: [traverse] of the shared package is not among
    the sources; it is the "depth-first walker" that calls back on every
    key of the object, parents before children, with the key, the value,
    the separator-joined path from the root and the depth (0 for the keys
    of the root).  The keys of an array are its indices. *)
Record CallbackItem : Type := mkItem {
  key : string;
  item_value : value;
  path : string;
  depth : nat
}.

Definition childPath (sep parent k : string) : string :=
  if nonempty parent then parent +:+ sep +:+ k else k.

Fixpoint traverse_from (sep parent : string) (d : nat) (v : value) : list CallbackItem :=
  match v with
  | VObj fields =>
      (fix children (fs : Dict) : list CallbackItem :=
         match fs with
         | [] => []
         | (k, child) :: fs' =>
             let p := childPath sep parent k in
             mkItem k child p d :: traverse_from sep p (S d) child ++ children fs'
         end) fields
  | VArr items =>
      (fix children (i : nat) (l : list value) : list CallbackItem :=
         match l with
         | [] => []
         | child :: l' =>
             let k := pretty i in
             let p := childPath sep parent k in
             mkItem k child p d :: traverse_from sep p (S d) child ++ children (S i) l'
         end) 0%nat items
  | _ => []
  end.

Definition traverse (sep : string) (obj : value) : list CallbackItem :=
  traverse_from sep EmptyString 0 obj.

(** *** [hashStyleObject]

    The variables the callback closes over. *)
Record WalkState : Type := mkWalk {
  isInCondition : bool;
  isFinalCondition : bool;
  w_cond : string;
  w_prop : string;
  prevProp : string;
  prevDepth : nat
}.

Definition initialWalk : WalkState := mkWalk false false "" "" "" 0.

(** [baseEntry]: the fields other than [prop], [value] and [cond]. *)
Record BaseEntry : Type := mkBase {
  base_recipe : option string;
  base_layer : option string;
  base_slot : option string
}.

Definition noBase : BaseEntry := mkBase None None None.

(** One call of the callback: the state after it and the entry it hashes,
    if it reaches [set.add]. *)
Definition visit (ctx : CollectorContext) (baseEntry : BaseEntry)
    (st : WalkState) (it : CallbackItem) : WalkState * option StyleEntry :=
  match item_value it with
  | VUndef => (st, None)
  | rawValue =>
      let value :=
        match rawValue with
        | VArr items => toResponsiveObject items (breakpoints_keys ctx)
        | _ => rawValue
        end in
      (* isFinalCondition = false; prop = key *)
      let fin := false in
      let prop := key it in
      let inCond := isInCondition st in
      let cond := w_cond st in
      let continue_leaf (fin : bool) (cond prop : string) :=
        let '(inCond, cond) :=
          if negb fin && inCond && String.eqb (path it) prop
          then (false, EmptyString)
          else if negb (Nat.eqb (depth it) (prevDepth st)) && negb inCond && negb fin
          then let c := getPreviousCondition (path it) in (nonempty c, c)
          else (inCond, cond) in
        let resolvedCondition := getResolvedCondition cond (isCondition ctx) in
        let entry :=
          mkStyleEntry prop value (Some resolvedCondition)
            (base_recipe baseEntry) (base_layer baseEntry) (base_slot baseEntry) in
        (mkWalk inCond fin cond prop prop (depth it), Some entry) in
      if isCondition ctx (key it) then
        if isObjectOrArray value then
          (mkWalk true fin (path it) prop (prevProp st) (depth it), None)
        else
          let cond' :=
            if inCond && nonempty cond
            then remove_first (conditionSeparator +:+ prevProp st) (path it)
            else key it in
          continue_leaf true cond' (prevProp st)
      else if isObjectOrArray value then
        (mkWalk inCond fin cond prop prop (depth it), None)
      else continue_leaf fin cond prop
  end.

(** The entries hashed during the walk, in the order of the calls. *)
Fixpoint walk (ctx : CollectorContext) (baseEntry : BaseEntry)
    (st : WalkState) (items : list CallbackItem) : list StyleEntry :=
  match items with
  | [] => []
  | it :: items' =>
      let '(st', out) := visit ctx baseEntry st it in
      match out with
      | Some e => e :: walk ctx baseEntry st' items'
      | None => walk ctx baseEntry st' items'
      end
  end.

Definition styleEntries (ctx : CollectorContext) (obj : value) (baseEntry : BaseEntry)
    : list StyleEntry :=
  let normalized := normalizeStyleObject ctx obj in
  walk ctx baseEntry initialWalk (traverse conditionSeparator normalized).

(** [set.add(hashed)] for every entry. *)
Definition addAll (set : gset string) (hashes : list string) : gset string :=
  fold_left (fun s h => {[ h ]} ∪ s) hashes set.

Definition hashStyleObject (ctx : CollectorContext) (set : gset string)
    (obj : value) (baseEntry : BaseEntry) : gset string :=
  addAll set (map hashStyleEntry (styleEntries ctx obj baseEntry)).

(** *** The registries and the entry points *)

Record Registries : Type := mkRegistries {
  atomic : gset string;
  compound_variants : gset string;
  recipes : gmap string (gset string);
  recipes_base : gmap string (gset string);
  recipes_slots : gmap string (gset string);
  recipes_slots_base : gmap string (gset string)
}.

(** The registries of [new HashFactory(context)]. *)
Definition fresh : Registries := mkRegistries ∅ ∅ ∅ ∅ ∅ ∅.

Definition set_atomic (s : gset string) (h : Registries) : Registries :=
  mkRegistries s (compound_variants h) (recipes h) (recipes_base h)
    (recipes_slots h) (recipes_slots_base h).

Definition set_compound_variants (s : gset string) (h : Registries) : Registries :=
  mkRegistries (atomic h) s (recipes h) (recipes_base h)
    (recipes_slots h) (recipes_slots_base h).

Definition set_recipes (m : gmap string (gset string)) (h : Registries) : Registries :=
  mkRegistries (atomic h) (compound_variants h) m (recipes_base h)
    (recipes_slots h) (recipes_slots_base h).

Definition set_recipes_base (m : gmap string (gset string)) (h : Registries) : Registries :=
  mkRegistries (atomic h) (compound_variants h) (recipes h) m
    (recipes_slots h) (recipes_slots_base h).

Definition set_recipes_slots (m : gmap string (gset string)) (h : Registries) : Registries :=
  mkRegistries (atomic h) (compound_variants h) (recipes h) (recipes_base h)
    m (recipes_slots_base h).

Definition set_recipes_slots_base (m : gmap string (gset string)) (h : Registries) : Registries :=
  mkRegistries (atomic h) (compound_variants h) (recipes h) (recipes_base h)
    (recipes_slots h) m.

(** [map.has(key)] *)
Definition has (m : gmap string (gset string)) (k : string) : bool :=
  match m !! k with Some _ => true | None => false end.

(** Modelled from the spec: [getOrCreateSet] of the shared package is not
    among the sources; it returns the set stored under the key, storing an
    empty one first when there is none.  The set is shared with the map, so
    that what [hashStyleObject] adds to it is added under the key:
    [hashInto] is [hashStyleObject(getOrCreateSet(map, key), obj, base)]. *)
Definition getOrCreateSet (m : gmap string (gset string)) (k : string) : gset string :=
  default ∅ (m !! k).

Definition hashInto (ctx : CollectorContext) (m : gmap string (gset string))
    (k : string) (obj : value) (baseEntry : BaseEntry) : gmap string (gset string) :=
  <[ k := hashStyleObject ctx (getOrCreateSet m k) obj baseEntry ]> m.

Definition processAtomic (ctx : CollectorContext) (styles : value) (h : Registries) : Registries :=
  set_atomic (hashStyleObject ctx (atomic h) styles noBase) h.

(** [filterProps] *)
Fixpoint filterProps (isValidProperty : string -> bool) (props : Dict) (clone : Dict) : Dict :=
  match props with
  | [] => clone
  | (k, v) :: props' =>
      let clone' :=
        match v with
        | VUndef => clone
        | _ => if isValidProperty k then obj_set k v clone else clone
        end in
      filterProps isValidProperty props' clone'
  end.

(** [this.filterStyleProps], chosen by the constructor. *)
Definition filterStyleProps (ctx : CollectorContext) (props : Dict) : Dict :=
  if isTemplateLiteralSyntax ctx then props
  else filterProps (isValidProperty ctx) props [].

Definition processStyleProps (ctx : CollectorContext) (styleProps : Dict) (h : Registries) : Registries :=
  let styles := filterStyleProps ctx styleProps in
  match obj_get "css" styles with
  | Some c =>
      if truthy c
      then processAtomic ctx (VObj (obj_assign (obj_assign [] styles) [("css", VUndef)]))
             (processAtomic ctx c h)
      else processAtomic ctx (VObj styles) h
  | None => processAtomic ctx (VObj styles) h
  end.

(** [Object.assign({}, config.defaultVariants, variants)]: a source that is
    [undefined] is skipped. *)
Definition mergeVariants (config : RecipeConfig) (variants : Dict) : Dict :=
  obj_assign (obj_assign [] (default [] (defaultVariants config))) variants.

(** The compound-variant block shared by [processRecipe] and
    [processSlotRecipe]; [each] atomizes one compound variant. *)
Definition processCompound (recipeName : string) (config : RecipeConfig)
    (each : CompoundVariant -> Registries -> Registries) (h : Registries) : Registries :=
  match compoundVariants config with
  | Some cvs =>
      if bool_decide (recipeName ∈ compound_variants h) then h
      else
        fold_left (fun h' cv => each cv h') cvs
          (set_compound_variants ({[ recipeName ]} ∪ compound_variants h) h)
  | None => h
  end.

(** [processRecipe] up to the compound variants: the selection is hashed
    into [recipes[recipeName]], the base styles into
    [recipes_base[recipeName]] unless the key is there. *)
Definition recipeVariantsAndBase (ctx : CollectorContext) (recipeName : string)
    (config : RecipeConfig) (variants : Dict) (h : Registries) : Registries :=
  let byRecipe := mkBase (Some recipeName) None None in
  let styles := mergeVariants config variants in
  let h := set_recipes (hashInto ctx (recipes h) recipeName (VObj styles) byRecipe) h in
  match base config with
  | Some b =>
      if has (recipes_base h) recipeName then h
      else set_recipes_base (hashInto ctx (recipes_base h) recipeName (VObj b) byRecipe) h
  | None => h
  end.

Definition processRecipe (ctx : CollectorContext) (recipeName : string)
    (variants : Dict) (h : Registries) : Registries :=
  match getConfig ctx recipeName with
  | None => h
  | Some config =>
      processCompound recipeName config (fun cv => processAtomic ctx (VObj (css cv)))
        (recipeVariantsAndBase ctx recipeName config variants h)
  end.

(** One round of [config.slots.forEach]. *)
Definition processSlot (ctx : CollectorContext) (recipeName : string)
    (config : RecipeConfig) (styles : Dict) (h : Registries) (slot : string) : Registries :=
  let recipeKey := getSlotKey ctx recipeName slot in
  let bySlot := mkBase (Some recipeName) None (Some slot) in
  let h := set_recipes_slots (hashInto ctx (recipes_slots h) recipeKey (VObj styles) bySlot) h in
  match base config with
  | Some b =>
      match obj_get slot b with
      | Some slotBase =>
          if truthy slotBase && negb (has (recipes_slots_base h) recipeKey)
          then set_recipes_slots_base
                 (hashInto ctx (recipes_slots_base h) recipeKey slotBase bySlot) h
          else h
      | None => h
      end
  | None => h
  end.

(** [styles ?? {}] *)
Definition orEmptyObject (styles : value) : value :=
  match styles with VUndef | VNull => VObj [] | _ => styles end.

Definition processSlotRecipe (ctx : CollectorContext) (recipeName : string)
    (variants : Dict) (h : Registries) : Registries :=
  match getConfig ctx recipeName with
  | None => h
  | Some config =>
      let styles := mergeVariants config variants in
      let h := fold_left (processSlot ctx recipeName config styles) (slots config) h in
      processCompound recipeName config
        (fun cv h' =>
           fold_left (fun h'' styles => processAtomic ctx (orEmptyObject styles) h'')
             (obj_values (css cv)) h')
        h
  end.

Inductive PatternType : Type := Pattern | JsxPattern.

(** The [fnName] of [processPattern]. *)
Definition patternFnName (ctx : CollectorContext) (name : string)
    (type : option PatternType) (jsxName : option string) : string :=
  match type, jsxName with
  | Some JsxPattern, Some j => if nonempty j then getFnName ctx j else name
  | _, _ => name
  end.

Definition processPattern (ctx : CollectorContext) (name : string) (patternProps : Dict)
    (type : option PatternType) (jsxName : option string) (h : Registries) : Registries :=
  let fnName := patternFnName ctx name type jsxName in
  let styleProps := transform ctx fnName patternProps in
  processStyleProps ctx styleProps h.

(** [fork()]: a factory on the same context, with registries of its own. *)
Definition fork (h : Registries) : Registries := fresh.

(** [isEmpty()] *)
Definition isEmpty (h : Registries) : bool :=
  Nat.eqb (size (atomic h)) 0
  && Nat.eqb (size (recipes h)) 0
  && Nat.eqb (size (recipes_slots h)) 0
  && Nat.eqb (size (compound_variants h)) 0
  && Nat.eqb (size (recipes_base h)) 0
  && Nat.eqb (size (recipes_slots_base h)) 0.

(** The argument of [processAtomicRecipe]:
    [Pick<RecipeConfig, 'base' | 'variants' | 'compoundVariants'>]; [variants]
    maps a variant name to the map from its values to their styles. *)
Record AtomicRecipe : Type := mkAtomicRecipe {
  ar_base : option Dict;
  ar_variants : option (list (string * Dict));
  ar_compoundVariants : option (list CompoundVariant)
}.

(** [processAtomicRecipe]; the destructuring defaults stand for the fields
    that are [undefined]. *)
Definition processAtomicRecipe (ctx : CollectorContext) (recipe : AtomicRecipe)
    (h : Registries) : Registries :=
  let base := default [] (ar_base recipe) in
  let variants := default [] (ar_variants recipe) in
  let compoundVariants := default [] (ar_compoundVariants recipe) in
  let h := processAtomic ctx (VObj base) h in
  let h :=
    fold_left
      (fun h' variant =>
         fold_left (fun h'' styles => processAtomic ctx styles h'') (obj_values variant.2) h')
      variants h in
  fold_left (fun h' compoundVariant => processAtomic ctx (VObj (css compoundVariant)) h')
    compoundVariants h.

(** [processAtomicSlotRecipe], on the result [slots] of [getSlotRecipes]
    (a helper of the shared package, not among the sources): one recipe per
    slot. *)
Definition processAtomicSlotRecipe (ctx : CollectorContext)
    (slots : list (string * AtomicRecipe)) (h : Registries) : Registries :=
  fold_left (fun h' slotRecipe => processAtomicRecipe ctx slotRecipe.2 h') slots h.

End HashFactory.

(** ** The builder

    [Builder] keeps per-instance fields and reads two module-level caches,
    [configCache] and [contentFilesCache], which every instance shares.  The
    caches and the log of calls to the collaborators form the [World]; the
    fields form the [BuilderState].  The collaborators (file system, config
    loader, dependency scanner, file extractor, CSS merge) are the fields of
    an [Env], given anew at each call since the files change between calls.
    An [async] method is run to its end in one step. *)

Module Builder.

(** What [loadConfigAndCreateContext] resolves to, as far as the builder
    reads it: [context.dependencies], [context.config.cwd] and
    [context.getFiles()]. *)
Record ContextInfo : Type := mkInfo {
  dependencies : list string;
  config_cwd : option string;
  getFiles : list string
}.

(** A context object: [ctx_id] is its identity, by which the [WeakMap]
    [contentFilesCache] is keyed. *)
Record PandaContext : Type := mkCtx {
  ctx_id : nat;
  info : ContextInfo
}.

(** A modification time as [extractFile] computes it: [stat.mtimeMs], or
    [-Infinity] for a file that does not exist. *)
Inductive Mtime : Type :=
| NegInfinity
| Ms (t : Z).

#[export] Instance Mtime_eq_dec : EqDecision Mtime.
Proof. solve_decision. Defined.

Record ContentData : Type := mkContent {
  fileCssMap : gmap string string;
  fileModifiedMap : gmap string Mtime
}.

(** [depsModifiedMap] is [None] when [setupContext] was handed
    [undefined] (the [prevModified!] of a path that had no entry). *)
Record ConfigData : Type := mkConfigData {
  cd_context : PandaContext;
  cd_deps : list string;
  depsModifiedMap : option (gmap string Z)
}.

Record ConfigDepsResult : Type := mkDepsResult {
  modifiedMap : option (gmap string Z);
  isModified : bool
}.

(** The calls made to the collaborators, oldest first. *)
Inductive Event : Type :=
| LoadConfig (configPath : string)
| CallHookConfigChange (ctx : nat)
| ReloadSourceFiles (ctx : nat)
| InvalidateRequireCache (file : string)
| ExtractFile (ctx : nat) (file : string)
| EmitArtifacts (ctx : nat).

#[export] Instance Event_eq_dec : EqDecision Event.
Proof. solve_decision. Defined.

Record World : Type := mkWorld {
  configCache : gmap string ConfigData;
  contentFilesCache : gmap nat ContentData;
  next_ctx : nat;
  trace : list Event
}.

Definition emptyWorld : World := mkWorld ∅ ∅ 0 [].

Record BuilderState : Type := mkBuilder {
  context : option PandaContext;
  hasEmitted : bool;
  configDependencies : list string;
  hasConfigChanged : bool
}.

(** [new Builder()] *)
Definition newBuilder : BuilderState := mkBuilder None false [] false.

(** The extractor returns a CSS fragment or [undefined], or throws. *)
Inductive Extracted : Type :=
| Throws
| Returns (css : option string).

Record Env : Type := mkEnv {
  statSync : string -> option Z;
  findConfig : option string;
  getConfigDependencies : string -> option PandaContext -> list string;
  resolve : string -> string -> string;
  process_cwd : string;
  loadConfigAndCreateContext : string -> option ContextInfo;
  extractFile_ext : PandaContext -> string -> Extracted;
  mergeCss : string -> string -> string
}.

Inductive Error : Type :=
| ConfigNotFoundError
| ContextNotLoaded
| LoadFailed.

(** The outcome of a method: the world and the fields it leaves behind,
    and the error it threw, if any. *)
Record Outcome : Type := mkOutcome {
  world : World;
  builder : BuilderState;
  thrown : option Error
}.

Definition log (e : Event) (w : World) : World :=
  mkWorld (configCache w) (contentFilesCache w) (next_ctx w) (trace w ++ [e]).

(** [checkConfigDeps]: the first loop. *)
Fixpoint scanDeps (env : Env) (prevModified : option (gmap string Z)) (deps : list string)
    (newModified : gmap string Z) (modified : bool) : gmap string Z * bool :=
  match deps with
  | [] => (newModified, modified)
  | file :: deps' =>
      match statSync env file with
      | None => scanDeps env prevModified deps' newModified modified
      | Some time =>
          let newer :=
            match prevModified with
            | None => true
            | Some prev =>
                match prev !! file with
                | None => true
                | Some old => (old <? time)%Z
                end
            end in
          scanDeps env prevModified deps' (<[ file := time ]> newModified)
            (if newer then true else modified)
      end
  end.

Definition checkConfigDeps (env : Env) (configPath : string) (deps : list string)
    (w : World) : ConfigDepsResult * World :=
  let prevModified :=
    match configCache w !! configPath with
    | Some c => depsModifiedMap c
    | None => None
    end in
  let '(newModified, modified) := scanDeps env prevModified deps ∅ false in
  if negb modified then (mkDepsResult prevModified false, w)
  else
    (mkDepsResult (Some newModified) true,
     fold_left (fun w' file => log (InvalidateRequireCache file) w') deps w).

(** [getConfigPath] *)
Definition getConfigPath (env : Env) : option string :=
  match findConfig env with
  | Some p => if JsString.nonempty p then Some p else None
  | None => None
  end.

(** [new Set(list)]: the elements in the order of their first occurrence. *)
Fixpoint setOf (seen l : list string) : list string :=
  match l with
  | [] => []
  | x :: l' =>
      if bool_decide (x ∈ seen) then setOf seen l' else x :: setOf (x :: seen) l'
  end.

(** [setupContext]: when the loader rejects, the error is thrown before
    anything is assigned. *)
Definition setupContext (env : Env) (configPath : string)
    (depsModified : option (gmap string Z)) (w : World) (b : BuilderState) : Outcome :=
  let w := log (LoadConfig configPath) w in
  match loadConfigAndCreateContext env configPath with
  | None => mkOutcome w b (Some LoadFailed)
  | Some i =>
      let ctx := mkCtx (next_ctx w) i in
      let w :=
        mkWorld
          (<[ configPath := mkConfigData ctx (setOf [] (dependencies i)) depsModified ]>
             (configCache w))
          (<[ ctx_id ctx := mkContent ∅ ∅ ]> (contentFilesCache w))
          (S (next_ctx w)) (trace w) in
      mkOutcome w
        (mkBuilder (Some ctx) (hasEmitted b) (configDependencies b) (hasConfigChanged b))
        None
  end.

Definition set_context (c : PandaContext) (b : BuilderState) : BuilderState :=
  mkBuilder (Some c) (hasEmitted b) (configDependencies b) (hasConfigChanged b).

(** [options.configPath ?? this.getConfigPath()] *)
Definition setupConfigPath (env : Env) (opt_configPath : option string) : option string :=
  match opt_configPath with
  | Some p => Some p
  | None => getConfigPath env
  end.

(** The [configDeps] of [setup]: the dependencies found for the config
    file, then those of the current context resolved against [cwd]. *)
Definition setupConfigDeps (env : Env) (configPath : string) (opt_cwd : option string)
    (b : BuilderState) : list string :=
  let foundDeps := getConfigDependencies env configPath (context b) in
  let cwd :=
    match opt_cwd with
    | Some c => c
    | None =>
        match context b with
        | Some c => default (process_cwd env) (config_cwd (info c))
        | None => process_cwd env
        end
    end in
  let ctxDeps :=
    match context b with
    | Some c => map (resolve env cwd) (dependencies (info c))
    | None => []
    end in
  setOf [] (foundDeps ++ ctxDeps).

(** The branch [if (deps.isModified)] of [setup].  The awaited hook is
    recorded as a call and taken to return; a hook that rejects would make
    [setup] reject after the caches have been replaced, which is outside
    the embedding (as is a [reloadSourceFiles] that throws). *)
Definition reloadModified (env : Env) (configPath : string) (deps : ConfigDepsResult)
    (w : World) (b : BuilderState) : Outcome :=
  if isModified deps then
    let o := setupContext env configPath (modifiedMap deps) w b in
    match thrown o with
    | Some _ => o
    | None =>
        match context (builder o) with
        | None => mkOutcome (world o) (builder o) (Some ContextNotLoaded)
        | Some c => mkOutcome (log (CallHookConfigChange (ctx_id c)) (world o)) (builder o) None
        end
    end
  else mkOutcome w b None.

(** [setup({ configPath, cwd })] *)
Definition setup (env : Env) (opt_configPath opt_cwd : option string)
    (w : World) (b : BuilderState) : Outcome :=
  match setupConfigPath env opt_configPath with
  | None => mkOutcome w b (Some ConfigNotFoundError)
  | Some configPath =>
      let configDeps := setupConfigDeps env configPath opt_cwd b in
      let b := mkBuilder (context b) (hasEmitted b) configDeps (hasConfigChanged b) in
      let '(deps, w) := checkConfigDeps env configPath configDeps w in
      let b := mkBuilder (context b) (hasEmitted b) (configDependencies b) (isModified deps) in
      let o := reloadModified env configPath deps w b in
      match thrown o with
      | Some _ => o
      | None =>
          match configCache (world o) !! configPath with
          | Some cache =>
              mkOutcome (log (ReloadSourceFiles (ctx_id (cd_context cache))) (world o))
                (set_context (cd_context cache) (builder o)) None
          | None => setupContext env configPath (modifiedMap deps) (world o) (builder o)
          end
      end
  end.

(** [emit()] *)
Definition emit (w : World) (b : BuilderState) : Outcome :=
  if hasEmitted b && hasConfigChanged b then
    match context b with
    | None => mkOutcome w b (Some ContextNotLoaded)
    | Some c =>
        mkOutcome (log (EmitArtifacts (ctx_id c)) w)
          (mkBuilder (context b) true (configDependencies b) (hasConfigChanged b)) None
    end
  else
    mkOutcome w (mkBuilder (context b) true (configDependencies b) (hasConfigChanged b)) None.

Definition set_content (c : PandaContext) (d : ContentData) (w : World) : World :=
  mkWorld (configCache w) (<[ ctx_id c := d ]> (contentFilesCache w)) (next_ctx w) (trace w).

(** [writeFileCss] *)
Definition writeFileCss (env : Env) (file css : string) (d : ContentData) : ContentData :=
  let oldCss := default EmptyString (fileCssMap d !! file) in
  let newCss := mergeCss env oldCss css in
  mkContent (<[ file := newCss ]> (fileCssMap d)) (fileModifiedMap d).

(** [existsSync(file) ? statSync(file).mtimeMs : -Infinity] *)
Definition mtimeOf (env : Env) (file : string) : Mtime :=
  match statSync env file with
  | Some t => Ms t
  | None => NegInfinity
  end.

(** The method [extractFile(ctx, file)] of a builder whose current context
    is [cur]; the getters [fileModifiedMap] and [fileCssMap] read the
    content data stored for [cur].  The promise is rejected, with nothing
    changed, when there is no such data or when the extractor throws. *)
Definition extractFile (env : Env) (cur ctx : PandaContext) (file : string) (w : World) : World :=
  let mtime := mtimeOf env file in
  match contentFilesCache w !! ctx_id cur with
  | None => w
  | Some d =>
      let isUnchanged :=
        match fileModifiedMap d !! file with
        | Some recorded => bool_decide (mtime = recorded)
        | None => false
        end in
      if isUnchanged then w
      else
        let w := log (ExtractFile (ctx_id ctx) file) w in
        match extractFile_ext env ctx file with
        | Throws => w
        | Returns None => w
        | Returns (Some css) =>
            if negb (JsString.nonempty css) then w
            else
              let d := mkContent (fileCssMap d) (<[ file := mtime ]> (fileModifiedMap d)) in
              set_content cur (writeFileCss env file css d) w
        end
  end.

(** [extract()]: the files are taken in order; a rejected extraction is
    settled without effect on the others. *)
Definition extractFiles (env : Env) (ctx : PandaContext) (files : list string) (w : World)
    : World :=
  fold_left (fun w' file => extractFile env ctx ctx file w') files w.

Definition extract (env : Env) (w : World) (b : BuilderState) : Outcome :=
  match context b with
  | None => mkOutcome w b (Some ContextNotLoaded)
  | Some ctx => mkOutcome (extractFiles env ctx (getFiles (info ctx)) w) b None
  end.

End Builder.

(** ** The wording of the specification

    Definitions that follow the specification rather than the code, to be
    compared with the code. *)

Module Described.

Import JsString JsValue HashFactory.

(** The condition resolver as the specification words it: "split the
    path on the condition separator; drop the first segment if [dropFirst]
    holds of it; filter out placeholder base markers; if filtering changed
    the segment count, rejoin the remaining segments with the separator,
    otherwise return the original string unchanged; empty input yields
    empty output". *)
Definition resolveCondition (dropFirst : string -> bool) (cond : string) : string :=
  if negb (nonempty cond) then EmptyString
  else
    let parts := split conditionSeparator cond in
    let kept :=
      match parts with
      | first :: rest => if dropFirst first then rest else parts
      | [] => parts
      end in
    let remaining := List.filter (fun v => negb (String.eqb v "base")) kept in
    if negb (Nat.eqb (length parts) (length remaining))
    then join conditionSeparator remaining
    else cond.

(** "Drop the first segment if it is not itself recognized as a condition
    key." *)
Definition getResolvedCondition_spec (cond : string) (isCondition : string -> bool) : string :=
  resolveCondition (fun first => negb (isCondition first)) cond.

(** The same with the guard of the code: the first segment is dropped if
    it is not empty and not recognized as a condition key. *)
Definition getResolvedCondition_guarded (cond : string) (isCondition : string -> bool) : string :=
  resolveCondition (fun first => nonempty first && negb (isCondition first)) cond.

(** Two style objects "equal up to key ordering": the same key-value
    pairs at every level, in a different order. *)
Inductive sameUpToKeyOrder : value -> value -> Prop :=
| same_refl v : sameUpToKeyOrder v v
| same_swap kv1 kv2 fields :
    sameUpToKeyOrder (VObj (kv1 :: kv2 :: fields)) (VObj (kv2 :: kv1 :: fields))
| same_value k v v' fields :
    sameUpToKeyOrder v v' ->
    sameUpToKeyOrder (VObj ((k, v) :: fields)) (VObj ((k, v') :: fields))
| same_rest kv fields fields' :
    sameUpToKeyOrder (VObj fields) (VObj fields') ->
    sameUpToKeyOrder (VObj (kv :: fields)) (VObj (kv :: fields'))
| same_trans v1 v2 v3 :
    sameUpToKeyOrder v1 v2 -> sameUpToKeyOrder v2 v3 -> sameUpToKeyOrder v1 v3.

(** A call of one of the two recipe entry points, and a run of calls for
    one recipe name. *)
Inductive RecipeCall : Type :=
| AsRecipe (variants : Dict)
| AsSlotRecipe (variants : Dict).

Definition call (ctx : CollectorContext) (recipeName : string)
    (h : Registries) (c : RecipeCall) : Registries :=
  match c with
  | AsRecipe variants => processRecipe ctx recipeName variants h
  | AsSlotRecipe variants => processSlotRecipe ctx recipeName variants h
  end.

(** The style blocks of the compound variants, as each entry point reads
    them: the [css] of each one for a recipe, the styles of each slot of
    each [css] for a slot recipe. *)
Definition compoundStyles (c : RecipeCall) (cvs : list CompoundVariant) : list value :=
  match c with
  | AsRecipe _ => map (fun cv => VObj (css cv)) cvs
  | AsSlotRecipe _ => flat_map (fun cv => map orEmptyObject (obj_values (css cv))) cvs
  end.

(** The four recipe maps agree. *)
Definition sameRecipeMaps (h h' : Registries) : Prop :=
  recipes h = recipes h' /\ recipes_base h = recipes_base h'
  /\ recipes_slots h = recipes_slots h' /\ recipes_slots_base h = recipes_slots_base h'.

(** Atomizing a list of style blocks into a set, one after the other. *)
Definition atomizeAll (ctx : CollectorContext) (blocks : list value) (set : gset string)
    : gset string :=
  fold_left (fun s block => hashStyleObject ctx s block noBase) blocks set.

(** What the builder's methods are said to do. *)

(** The calls made to the collaborators between two worlds. *)
Definition callsSince (w w' : Builder.World) : list Builder.Event :=
  drop (length (Builder.trace w)) (Builder.trace w').

(** "A non-empty CSS fragment resulted" from the extractor. *)
Definition extracted (env : Builder.Env) (ctx : Builder.PandaContext) (file : string)
    : option string :=
  match Builder.extractFile_ext env ctx file with
  | Builder.Returns (Some css) => if nonempty css then Some css else None
  | _ => None
  end.

(** A dependency file counts as modified when it is on disk and is "newer,
    or was not previously tracked"; a file missing from disk is skipped. *)
Definition isStale (env : Builder.Env) (prev : option (gmap string Z)) (file : string) : bool :=
  match Builder.statSync env file with
  | None => false
  | Some time =>
      match prev with
      | None => true
      | Some recorded =>
          match recorded !! file with
          | None => true
          | Some old => (old <? time)%Z
          end
      end
  end.

Definition anyStale (env : Builder.Env) (prev : option (gmap string Z)) (deps : list string)
    : bool :=
  existsb (isStale env prev) deps.

(** The snapshot recorded for a configuration path. *)
Definition recordedDeps (w : Builder.World) (configPath : string) : option (gmap string Z) :=
  match Builder.configCache w !! configPath with
  | Some c => Builder.depsModifiedMap c
  | None => None
  end.

(** A map of hash sets grows: every key stays, with at least its hashes. *)
Definition mapGrows (m m' : gmap string (gset string)) : Prop :=
  forall k s, m !! k = Some s -> exists s', m' !! k = Some s' /\ s ⊆ s'.

(** The registries grow: nothing that was registered is lost. *)
Definition grows (h h' : Registries) : Prop :=
  atomic h ⊆ atomic h'
  /\ compound_variants h ⊆ compound_variants h'
  /\ mapGrows (recipes h) (recipes h')
  /\ mapGrows (recipes_base h) (recipes_base h')
  /\ mapGrows (recipes_slots h) (recipes_slots h')
  /\ mapGrows (recipes_slots_base h) (recipes_slots_base h').

(** [value === undefined] *)
Definition isUndefined (v : value) : bool :=
  match v with VUndef => true | _ => false end.

(** The slots whose base styles are due have their key in the map. *)
Definition slotBasesDone (ctx : CollectorContext) (name : string) (config : RecipeConfig)
    (ss : list string) (m : gmap string (gset string)) : Prop :=
  forall s b slotBase,
    s ∈ ss -> base config = Some b -> obj_get s b = Some slotBase ->
    truthy slotBase = true -> has m (getSlotKey ctx name s) = true.

(** The slot of an entry, an absent one counting as empty. *)
Definition slotOf (e : StyleEntry) : string := default EmptyString (slot e).

(** The segments [getResolvedCondition] keeps. *)
Definition keptSegments (cond : string) (isCondition : string -> bool) : list string :=
  let parts := split conditionSeparator cond in
  let first := hd EmptyString parts in
  if nonempty first && negb (isCondition first)
  then tl (filterBaseConditions parts)
  else filterBaseConditions parts.

(** The style blocks [processAtomicRecipe] atomizes, in order. *)
Definition atomicRecipeBlocks (recipe : AtomicRecipe) : list value :=
  [VObj (default [] (ar_base recipe))]
    ++ flat_map (fun variant : string * Dict => obj_values variant.2)
         (default [] (ar_variants recipe))
    ++ map (fun cv => VObj (css cv)) (default [] (ar_compoundVariants recipe)).

(** The caches are consistent: every context held by the config cache has
    its content data, and every context that has content data was created
    before. *)
Definition consistent (w : Builder.World) : Prop :=
  (forall p c, Builder.configCache w !! p = Some c ->
     is_Some (Builder.contentFilesCache w !! Builder.ctx_id (Builder.cd_context c)))
  /\ (forall id, is_Some (Builder.contentFilesCache w !! id) -> id < Builder.next_ctx w).

(** A flat style object: its keys are properties (no condition key), no two
    of them normalize to the same property, and every value is a leaf. *)
Definition flatStyles (ctx : CollectorContext) (fields : Dict) : Prop :=
  NoDup (map (fun kv : string * value => normalizeKey ctx kv.1) fields)
  /\ Forall (fun kv : string * value =>
               isCondition ctx (normalizeKey ctx kv.1) = false
               /\ isObjectOrArray kv.2 = false) fields.

(** The entries of a flat style object: one for every property whose value
    is not [undefined], in order, under no condition. *)
Definition flatEntries (ctx : CollectorContext) (fields : Dict) (baseEntry : BaseEntry)
    : list StyleEntry :=
  map (fun kv : string * value =>
         mkStyleEntry (normalizeKey ctx kv.1) kv.2 (Some EmptyString)
           (base_recipe baseEntry) (base_layer baseEntry) (base_slot baseEntry))
    (List.filter (fun kv : string * value => negb (isUndefined kv.2)) fields).

End Described.

(** ** Sample data *)

Module Samples.

Import JsString JsValue HashFactory.

(** A context with the breakpoints [base], [sm], [md], [lg], the
    conditions [_hover], [_dark] and [_groupHover], the shorthand [p] of
    [padding], a recipe [button] and a slot recipe [card], and a pattern
    [stack]. *)
Definition button : RecipeConfig :=
  mkRecipeConfig
    (Some [("size", VStr "md")])
    (Some [("fontWeight", VStr "bold")])
    []
    (Some [mkCompoundVariant [("color", VStr "red")]]).

Definition card : RecipeConfig :=
  mkRecipeConfig
    None
    (Some [("root", VObj [("padding", VNum 4)])])
    ["root"; "title"]
    (Some [mkCompoundVariant [("root", VObj [("color", VStr "blue")]); ("title", VUndef)]]).

Definition collector : CollectorContext :=
  mkContext
    false
    (fun k => bool_decide (k ∈ ["mx"; "padding"; "color"; "bg"; "display"; "fontWeight"]))
    (fun k => bool_decide (k ∈ ["base"; "sm"; "md"; "lg"; "_hover"; "_dark"; "_groupHover"]))
    ["base"; "sm"; "md"; "lg"]
    true
    (fun k => if String.eqb k "p" then "padding" else k)
    (fun name =>
       if String.eqb name "button" then Some button
       else if String.eqb name "card" then Some card
       else None)
    (fun name slot => name +:+ "__" +:+ slot)
    (fun jsxName => if String.eqb jsxName "Stack" then "stack" else jsxName)
    (fun fnName props =>
       if String.eqb fnName "stack" then obj_assign [("display", VStr "flex")] props
       else []).

(** A project with a configuration file and two source files, one of which
    uses no style. *)
Definition env : Builder.Env :=
  Builder.mkEnv
    (fun file =>
       if String.eqb file "panda.config.ts" then Some 100%Z
       else if String.eqb file "src/App.tsx" then Some 7%Z
       else if String.eqb file "src/Plain.tsx" then Some 9%Z
       else None)
    (Some "panda.config.ts")
    (fun configPath _ => [configPath])
    (fun cwd file => cwd +:+ "/" +:+ file)
    "/app"
    (fun _ => Some (Builder.mkInfo [] (Some "/app") ["src/App.tsx"; "src/Plain.tsx"]))
    (fun _ file =>
       if String.eqb file "src/App.tsx" then Builder.Returns (Some ".c_red{color:red}")
       else Builder.Returns None)
    (fun oldCss css => oldCss +:+ css).

(** The same project seen through a dependency scanner that finds nothing. *)
Definition envWithoutDeps : Builder.Env :=
  Builder.mkEnv (Builder.statSync env) (Builder.findConfig env) (fun _ _ => [])
    (Builder.resolve env) (Builder.process_cwd env) (Builder.loadConfigAndCreateContext env)
    (Builder.extractFile_ext env) (Builder.mergeCss env).

(** The configuration file touched. *)
Definition envTouched : Builder.Env :=
  Builder.mkEnv
    (fun file =>
       if String.eqb file "panda.config.ts" then Some 250%Z else Builder.statSync env file)
    (Builder.findConfig env) (Builder.getConfigDependencies env)
    (Builder.resolve env) (Builder.process_cwd env) (Builder.loadConfigAndCreateContext env)
    (Builder.extractFile_ext env) (Builder.mergeCss env).

(** The same project with a configuration that fails to load. *)
Definition envBroken : Builder.Env :=
  Builder.mkEnv (Builder.statSync envTouched) (Builder.findConfig env)
    (Builder.getConfigDependencies env) (Builder.resolve env) (Builder.process_cwd env)
    (fun _ => None) (Builder.extractFile_ext env) (Builder.mergeCss env).

(** A project in which no configuration file is found. *)
Definition envWithoutConfig : Builder.Env :=
  Builder.mkEnv (Builder.statSync env) None (Builder.getConfigDependencies env)
    (Builder.resolve env) (Builder.process_cwd env) (Builder.loadConfigAndCreateContext env)
    (Builder.extractFile_ext env) (Builder.mergeCss env).

(** The state after a first [setup()]. *)
Definition afterSetup : Builder.Outcome :=
  Builder.setup env None None Builder.emptyWorld Builder.newBuilder.

End Samples.

(** * Properties of the hash factory *)

Import JsString JsValue HashFactory Described.

(** ** Strings and sets *)

Lemma string_app_cons (x : Ascii.ascii) (a b : string) : String x a +:+ b = String x (a +:+ b).
Proof. reflexivity. Qed.

Lemma string_app_assoc (a b c : string) : (a +:+ b) +:+ c = a +:+ (b +:+ c).
Proof.
  induction a as [| x a IH]; [reflexivity |].
  rewrite !string_app_cons. by rewrite IH.
Qed.

Lemma string_app_empty_r (a : string) : a +:+ "" = a.
Proof.
  induction a as [| x a IH]; [reflexivity |].
  rewrite string_app_cons. by rewrite IH.
Qed.

Lemma string_app_cancel (p a b : string) : p +:+ a = p +:+ b -> a = b.
Proof.
  induction p as [| x p IH]; [done |].
  rewrite !string_app_cons. intros [= H]. by apply IH.
Qed.

Lemma split_go_not_nil (sep : string) (s : string) :
  forall k cur, split_go sep k cur s <> [].
Proof.
  induction s as [| c s IH]; intros k cur; cbn [split_go]; [discriminate |].
  destruct k; [| apply IH].
  destruct (starts_with sep (String c s)); [discriminate | apply IH].
Qed.

Lemma join_cons (sep p : string) (rest : list string) :
  rest <> [] -> join sep (p :: rest) = p +:+ sep +:+ join sep rest.
Proof. destruct rest; [done | reflexivity]. Qed.

Lemma starts_with_skip (p s : string) :
  starts_with p s = true -> s = p +:+ skip_chars (String.length p) s.
Proof.
  revert s. induction p as [| a p IH]; intros s H; [reflexivity |].
  destruct s as [| b s]; [discriminate |].
  cbn [starts_with String.length skip_chars] in H |- *. rewrite string_app_cons.
  destruct (Ascii.eqb_spec a b) as [-> | ?]; [| discriminate].
  f_equal. by apply IH.
Qed.

Lemma starts_with_length (p s : string) :
  starts_with p s = true -> String.length p <= String.length s.
Proof.
  revert s. induction p as [| a p IH]; intros s H; cbn [String.length]; [lia |].
  destruct s as [| b s]; [discriminate |]. cbn [starts_with String.length] in H |- *.
  destruct (Ascii.eqb a b); [| discriminate]. apply IH in H. lia.
Qed.

Lemma split_go_skip (sep : string) (k : nat) :
  forall s cur, k <= String.length s ->
    split_go sep k cur s = split_go sep 0 cur (skip_chars k s).
Proof.
  induction k as [| k IH]; intros s cur Hk.
  - reflexivity.
  - destruct s as [| c s]; cbn [String.length] in Hk; [lia |].
    cbn [split_go skip_chars]. apply IH. lia.
Qed.

Lemma skip_chars_length (k : nat) (s : string) :
  String.length (skip_chars k s) <= String.length s.
Proof.
  revert s. induction k as [| k IH]; intros s; [cbn; lia |].
  destruct s as [| c s]; cbn [skip_chars String.length]; [lia |]. specialize (IH s). lia.
Qed.

Lemma join_split_go (sep : string) (n : nat) :
  sep <> "" ->
  forall s cur, String.length s <= n -> join sep (split_go sep 0 cur s) = cur +:+ s.
Proof.
  intros Hsep. induction n as [| n IH]; intros s cur Hn.
  - destruct s; cbn [String.length] in Hn; [| lia]. cbn [split_go join].
    by rewrite string_app_empty_r.
  - destruct s as [| c s]; [cbn [split_go join]; by rewrite string_app_empty_r |].
    cbn [String.length] in Hn. cbn [split_go].
    destruct (starts_with sep (String c s)) eqn:Hstart.
    + destruct sep as [| a sep']; [done |].
      pose proof Hstart as Hs. cbn [starts_with] in Hs.
      destruct (Ascii.eqb_spec a c) as [-> | ?]; [| discriminate].
      pose proof (starts_with_length _ _ Hs) as Hlen.
      rewrite join_cons by apply split_go_not_nil.
      replace (String.length (String c sep') - 1) with (String.length sep')
        by (cbn [String.length]; lia).
      rewrite split_go_skip by exact Hlen.
      rewrite IH by (pose proof (skip_chars_length (String.length sep') s); lia).
      change ("" +:+ skip_chars (String.length sep') s)
        with (skip_chars (String.length sep') s).
      rewrite string_app_cons. do 2 f_equal. symmetry. by apply starts_with_skip.
    + rewrite IH by lia. by rewrite string_app_assoc.
Qed.

(** Splitting on a separator and joining with it gives the string back. *)
Lemma join_split (sep s : string) : sep <> "" -> join sep (split sep s) = s.
Proof. intros Hsep. unfold split. by rewrite (join_split_go sep (String.length s)). Qed.


Lemma addAll_union (hashes : list string) (set : gset string) :
  addAll set hashes = list_to_set hashes ∪ set.
Proof.
  revert set. induction hashes as [|h hashes IH]; intros set; simpl.
  - set_solver.
  - rewrite IH. set_solver.
Qed.

Lemma hashStyleObject_union (ctx : CollectorContext) (set : gset string) (obj : value)
    (b : BaseEntry) :
  hashStyleObject ctx set obj b = hashStyleObject ctx ∅ obj b ∪ set.
Proof. unfold hashStyleObject. rewrite !addAll_union. set_solver. Qed.

(** ** The hash key of an entry *)

(** C10. The hash key embeds the value through its string coercion, and a
    [cond], [recipe], [layer] or [slot] that is empty or absent contributes
    no part: two entries that agree on every field but [value], whose values
    coerce to the same string, have the same key and are one member of a
    registry (the number 4 and the string "4", for instance); an entry with
    the empty [cond] has the key of the same entry without [cond]; and with
    every optional field empty or absent the key is
    [prop]___[value:<coerced value>]. *)
Theorem hashStyleEntry_coercion_and_empty_parts :
  (forall p v1 v2 c r l s,
      to_string v1 = to_string v2 ->
      hashStyleEntry (mkStyleEntry p v1 c r l s) = hashStyleEntry (mkStyleEntry p v2 c r l s)
      /\ forall set : gset string,
           addAll set [hashStyleEntry (mkStyleEntry p v1 c r l s);
                       hashStyleEntry (mkStyleEntry p v2 c r l s)]
           = {[ hashStyleEntry (mkStyleEntry p v1 c r l s) ]} ∪ set)
  /\ (forall p c r l s,
         hashStyleEntry (mkStyleEntry p (VNum 4) c r l s)
         = hashStyleEntry (mkStyleEntry p (VStr "4") c r l s))
  /\ (forall p v r l s,
         hashStyleEntry (mkStyleEntry p v (Some "") r l s)
         = hashStyleEntry (mkStyleEntry p v None r l s))
  /\ (forall p v c r l s,
         c ∈ [None; Some ""] -> r ∈ [None; Some ""] ->
         l ∈ [None; Some ""] -> s ∈ [None; Some ""] ->
         hashStyleEntry (mkStyleEntry p v c r l s)
         = p +:+ "]___[value:" +:+ to_string v).
Proof.
  split; [| split; [| split]].
  - intros p v1 v2 c r l s Hv. split.
    + unfold hashStyleEntry; simpl. by rewrite Hv.
    + intros set. unfold hashStyleEntry; simpl. rewrite Hv. simpl. set_solver.
  - reflexivity.
  - reflexivity.
  - intros p v c r l s Hc Hr Hl Hs.
    assert (Hpart : forall lbl f, f ∈ [None; Some ""] -> part lbl f = []).
    { intros lbl f Hf. rewrite !elem_of_cons in Hf.
      destruct Hf as [-> | [-> | Hf]]; [done | done | by apply elem_of_nil in Hf]. }
    unfold hashStyleEntry; simpl.
    rewrite !Hpart by assumption. reflexivity.
Qed.

Lemma hashStyleEntry_coercion_witness :
  to_string (VNum 4) = to_string (VStr "4")
  /\ hashStyleEntry (mkStyleEntry "p" (VNum 4) (Some "sm") None None None)
     = hashStyleEntry (mkStyleEntry "p" (VStr "4") (Some "sm") None None None).
Proof.
  split; [reflexivity |].
  apply (proj1 hashStyleEntry_coercion_and_empty_parts). reflexivity.
Defined.

(** ** The condition resolver *)

Example getResolvedCondition_examples :
  let isCond := fun k => bool_decide (k ∈ ["base"; "md"; "lg"; "_hover"; "_dark"; "& > p"; "@media base"]) in
  getResolvedCondition "marginTop<___>md" isCond = "md"
  /\ getResolvedCondition "marginTop<___>md<___>lg" isCond = "md<___>lg"
  /\ getResolvedCondition "_hover" isCond = "_hover"
  /\ getResolvedCondition "& > p<___>base" isCond = "& > p"
  /\ getResolvedCondition "@media base" isCond = "@media base"
  /\ getResolvedCondition "_hover<___>base<___>_dark" isCond = "_hover<___>_dark".
Proof. vm_compute. repeat split. Qed.

(** C2, as stated, fails on the code.  The code drops the first segment
    only when it is a non-empty string: for a path that starts with the
    separator, and a predicate that does not recognize the empty key, the
    resolver described drops the empty first segment and returns ["sm"],
    the code returns the path unchanged.  (And for a predicate that does not
    recognize [base], the code, which filters before it drops, loses the
    segment after a leading [base].) *)
Lemma getResolvedCondition_spec_counterexample :
  let isCond := fun k => bool_decide (k ∈ ["base"; "sm"; "md"; "lg"; "_hover"]) in
  (getResolvedCondition_spec "<___>sm" isCond = "sm"
   /\ getResolvedCondition "<___>sm" isCond = "<___>sm")
  /\ (getResolvedCondition_spec "base<___>sm" (fun _ => false) = "sm"
      /\ getResolvedCondition "base<___>sm" (fun _ => false) = "").
Proof. vm_compute. repeat split. Qed.

(** C2, amended.  For every path string and every condition predicate that
    recognizes the base marker, [getResolvedCondition] returns the empty
    string on empty input; otherwise it splits the path on the condition
    separator, drops the first segment when that segment is non-empty and not
    a condition key, filters out the base markers, and returns the remaining
    segments rejoined with the separator when the segment count changed, or
    the input string unchanged when it did not. *)
Theorem getResolvedCondition_guarded_correct (cond : string) (isCond : string -> bool) :
  isCond "base" = true ->
  getResolvedCondition cond isCond = getResolvedCondition_guarded cond isCond.
Proof.
  intros Hbase.
  unfold getResolvedCondition, getResolvedCondition_guarded, resolveCondition.
  destruct (nonempty cond); simpl; [| reflexivity].
  destruct (split conditionSeparator cond) as [| first rest]; simpl; [reflexivity |].
  destruct (nonempty first && negb (isCond first)) eqn:Hdrop; [| reflexivity].
  assert (Hfirst : String.eqb first "base" = false).
  { destruct (String.eqb_spec first "base") as [-> | Hne]; [| reflexivity].
    rewrite Hbase in Hdrop. by rewrite andb_false_r in Hdrop. }
  unfold filterBaseConditions, isBaseCondition. simpl.
  rewrite Hfirst. reflexivity.
Qed.

Lemma getResolvedCondition_guarded_witness :
  (fun k => bool_decide (k ∈ ["base"; "md"])) "base" = true
  /\ getResolvedCondition "marginTop<___>base<___>md" (fun k => bool_decide (k ∈ ["base"; "md"]))
     = getResolvedCondition_guarded "marginTop<___>base<___>md"
         (fun k => bool_decide (k ∈ ["base"; "md"])).
Proof.
  split; [reflexivity |].
  apply (getResolvedCondition_guarded_correct "marginTop<___>base<___>md"
           (fun k => bool_decide (k ∈ ["base"; "md"]))).
  reflexivity.
Defined.

(** ** The walk over a style object *)

(** Runs the walk on a concrete style object in an abstract context: the
    calls of [isCondition] and [normalizeKey] that block the evaluation are
    rewritten by [fact], one at a time. *)
Ltac eval_walk fact :=
  repeat (cbv -[isCondition normalizeKey]; fact);
  cbv -[isCondition normalizeKey].

(** C1. In a context where [base], [sm] and [lg] are condition keys that
    the normalization leaves as they are, and the property that [mx]
    normalizes to is not a condition key, [processAtomic] of
    [{ mx: { base: 1, sm: 2, lg: 3 } }] hashes three entries, each with that
    property as its prop, with the conditions [""] (none), ["sm"] and
    ["lg"] and the values 1, 2 and 3, and adds their three keys to the
    atomic registry: three members when the registry was empty.  The prop is
    [mx] itself exactly in a context where [mx] is not a shorthand. *)
Theorem processAtomic_responsive_mx (ctx : CollectorContext) (h : Registries) :
  let styles := VObj [("mx", VObj [("base", VNum 1); ("sm", VNum 2); ("lg", VNum 3)])] in
  let mx := normalizeKey ctx "mx" in
  isCondition ctx mx = false ->
  isCondition ctx "base" = true ->
  isCondition ctx "sm" = true ->
  isCondition ctx "lg" = true ->
  Forall (fun k => normalizeKey ctx k = k) ["base"; "sm"; "lg"] ->
  styleEntries ctx styles noBase
  = [mkStyleEntry mx (VNum 1) (Some "") None None None;
     mkStyleEntry mx (VNum 2) (Some "sm") None None None;
     mkStyleEntry mx (VNum 3) (Some "lg") None None None]
  /\ atomic (processAtomic ctx styles h)
     = {[ mx +:+ "]___[value:1"; mx +:+ "]___[value:2]___[cond:sm";
          mx +:+ "]___[value:3]___[cond:lg" ]}
         ∪ atomic h
  /\ (atomic h = ∅ -> size (atomic (processAtomic ctx styles h)) = 3)
  /\ (mx = "mx" ->
      atomic (processAtomic ctx styles h)
      = {[ "mx]___[value:1"; "mx]___[value:2]___[cond:sm"; "mx]___[value:3]___[cond:lg" ]}
          ∪ atomic h).
Proof.
  intros styles mx Hmx Hbase Hsm Hlg Hkeys.
  rewrite !Forall_cons in Hkeys.
  destruct Hkeys as (Kbase & Ksm & Klg & _).
  assert (Hentries : styleEntries ctx styles noBase
    = [mkStyleEntry mx (VNum 1) (Some "") None None None;
       mkStyleEntry mx (VNum 2) (Some "sm") None None None;
       mkStyleEntry mx (VNum 3) (Some "lg") None None None]).
  { unfold styles, mx in *.
    eval_walk ltac:(first [rewrite Kbase | rewrite Ksm | rewrite Klg
                          | rewrite Hmx | rewrite Hbase | rewrite Hsm | rewrite Hlg]).
    reflexivity. }
  split; [exact Hentries |].
  assert (Hatomic : atomic (processAtomic ctx styles h)
    = {[ mx +:+ "]___[value:1"; mx +:+ "]___[value:2]___[cond:sm";
         mx +:+ "]___[value:3]___[cond:lg" ]}
        ∪ atomic h).
  { unfold processAtomic, hashStyleObject. cbn [atomic set_atomic].
    rewrite Hentries, addAll_union. cbn [map].
    change (hashStyleEntry (mkStyleEntry mx (VNum 1) (Some "") None None None))
      with (mx +:+ "]___[value:1").
    change (hashStyleEntry (mkStyleEntry mx (VNum 2) (Some "sm") None None None))
      with ((mx +:+ "]___[value:2") +:+ "]___[cond:sm").
    change (hashStyleEntry (mkStyleEntry mx (VNum 3) (Some "lg") None None None))
      with ((mx +:+ "]___[value:3") +:+ "]___[cond:lg").
    rewrite !string_app_assoc.
    change ("]___[value:2" +:+ "]___[cond:sm") with "]___[value:2]___[cond:sm".
    change ("]___[value:3" +:+ "]___[cond:lg") with "]___[value:3]___[cond:lg".
    cbn [list_to_set foldr]. set_solver. }
  split; [exact Hatomic |].
  split.
  - intros Hempty. rewrite Hatomic, Hempty, (right_id_L ∅ (∪)).
    rewrite !size_union, !size_singleton; [reflexivity | |];
      intros x Hx Hy; set_unfold; subst x;
      repeat match goal with H : _ \/ _ |- _ => destruct H end;
      match goal with
      | H : _ +:+ _ = _ +:+ _ |- _ => apply string_app_cancel in H; discriminate H
      end.
  - intros Hsame. rewrite Hatomic, Hsame. reflexivity.
Qed.

(** C1 as worded fails in a context where [mx] is a shorthand: with [mx]
    the shorthand of [marginX] (the example of the factory's own comment),
    the three entries carry the prop [marginX], and the key that an entry
    with prop [mx] would have is not in the atomic registry. *)
Lemma processAtomic_responsive_mx_counterexample :
  let ctx :=
    mkContext false (fun _ => true)
      (fun k => bool_decide (k ∈ ["base"; "sm"; "md"; "lg"]))
      ["base"; "sm"; "md"; "lg"] true
      (fun k => if String.eqb k "mx" then "marginX" else k)
      (fun _ => None) (fun name slot => name +:+ "__" +:+ slot) (fun j => j)
      (fun _ props => props) in
  let styles := VObj [("mx", VObj [("base", VNum 1); ("sm", VNum 2); ("lg", VNum 3)])] in
  let h := processAtomic ctx styles fresh in
  styleEntries ctx styles noBase
  = [mkStyleEntry "marginX" (VNum 1) (Some "") None None None;
     mkStyleEntry "marginX" (VNum 2) (Some "sm") None None None;
     mkStyleEntry "marginX" (VNum 3) (Some "lg") None None None]
  /\ map prop (styleEntries ctx styles noBase) <> ["mx"; "mx"; "mx"]
  /\ atomic h
     = {[ "marginX]___[value:1"; "marginX]___[value:2]___[cond:sm";
          "marginX]___[value:3]___[cond:lg" ]}
  /\ "mx]___[value:1" ∉ atomic h.
Proof.
  intros ctx styles h.
  assert (Hentries : styleEntries ctx styles noBase
    = [mkStyleEntry "marginX" (VNum 1) (Some "") None None None;
       mkStyleEntry "marginX" (VNum 2) (Some "sm") None None None;
       mkStyleEntry "marginX" (VNum 3) (Some "lg") None None None]) by reflexivity.
  assert (Hatomic : atomic h
    = {[ "marginX]___[value:1"; "marginX]___[value:2]___[cond:sm";
         "marginX]___[value:3]___[cond:lg" ]}) by (vm_compute; reflexivity).
  split_and!; [exact Hentries | by rewrite Hentries | exact Hatomic |].
  rewrite Hatomic. set_solver.
Qed.

(** The other scenarios of the specification, in the sample context (where
    [p] is a shorthand of [padding]). *)
Example scenario_group_hover :
  map hashStyleEntry
    (styleEntries Samples.collector
       (VObj [("color", VObj [("base", VStr "blue.400"); ("_groupHover", VStr "blue.600")])])
       noBase)
  = ["color]___[value:blue.400"; "color]___[value:blue.600]___[cond:_groupHover"].
Proof. reflexivity. Qed.

Example scenario_hover_block :
  map hashStyleEntry
    (styleEntries Samples.collector
       (VObj [("p", VNum 4); ("_hover", VObj [("p", VNum 8)])]) noBase)
  = ["padding]___[value:4"; "padding]___[value:8]___[cond:_hover"].
Proof. reflexivity. Qed.

Lemma processAtomic_responsive_mx_witness :
  size (atomic (processAtomic Samples.collector
                  (VObj [("mx", VObj [("base", VNum 1); ("sm", VNum 2); ("lg", VNum 3)])])
                  fresh)) = 3.
Proof.
  apply (processAtomic_responsive_mx Samples.collector fresh);
    try reflexivity.
  repeat constructor.
Defined.

(** *** Flat style objects

    A style object whose keys are properties and whose values are leaves is
    hashed key by key: one entry for every defined property, under no
    condition. *)

Lemma obj_set_new (k : string) (v : value) (o : Dict) :
  k ∉ map fst o -> obj_set k v o = o ++ [(k, v)].
Proof.
  induction o as [| [k' v'] o IH]; intros Hk; [reflexivity |].
  cbn [obj_set]. cbn [map fst] in Hk.
  destruct (String.eqb_spec k k') as [-> | Hne]; [set_solver |].
  rewrite IH by set_solver. reflexivity.
Qed.

Lemma normalize_leaf (ctx : CollectorContext) (v : value) :
  isObjectOrArray v = false -> normalizeStyleObject ctx v = v.
Proof. by destruct v. Qed.

Lemma normalize_flat_fields (ctx : CollectorContext) (fields : Dict) :
  forall acc : Dict,
    Forall (fun kv : string * value => isObjectOrArray kv.2 = false) fields ->
    NoDup (map fst acc ++ map (fun kv : string * value => normalizeKey ctx kv.1) fields) ->
    (fix walk (fs : Dict) (result : Dict) : Dict :=
       match fs with
       | [] => result
       | (k, child) :: fs' =>
           walk fs' (obj_set (normalizeKey ctx k) (normalizeStyleObject ctx child) result)
       end) fields acc
    = acc ++ map (fun kv : string * value => (normalizeKey ctx kv.1, kv.2)) fields.
Proof.
  induction fields as [| [k v] fields IH]; intros acc Hleaf Hnodup.
  - by rewrite app_nil_r.
  - inversion Hleaf as [| ? ? Hv Hrest]; subst. cbn [snd] in Hv.
    cbn [map fst] in Hnodup.
    rewrite normalize_leaf by exact Hv.
    apply NoDup_app in Hnodup as (Hacc & Hdisj & Hfs).
    apply NoDup_cons in Hfs as [Hk Hfs].
    rewrite obj_set_new by (intros Hin; apply (Hdisj _ Hin); left).
    rewrite IH; [by rewrite <- app_assoc | exact Hrest |].
    rewrite map_app. cbn [map fst]. rewrite <- app_assoc. cbn [app].
    apply NoDup_app. split_and!; [exact Hacc | | by apply NoDup_cons].
    exact Hdisj.
Qed.

Lemma traverse_flat_fields (sep : string) (fields : Dict) :
  Forall (fun kv : string * value => isObjectOrArray kv.2 = false) fields ->
  traverse sep (VObj fields)
  = map (fun kv : string * value => mkItem kv.1 kv.2 kv.1 0) fields.
Proof.
  unfold traverse. cbn [traverse_from].
  induction fields as [| [k v] fields IH]; intros Hleaf; [reflexivity |].
  inversion Hleaf as [| ? ? Hv Hrest]; subst. cbn [snd] in Hv.
  cbn [map fst snd]. rewrite <- IH by exact Hrest.
  change (childPath sep "" k) with k.
  by destruct v.
Qed.

Lemma walk_flat_fields (ctx : CollectorContext) (baseEntry : BaseEntry) (fields : Dict) :
  forall st : WalkState,
    isInCondition st = false -> w_cond st = EmptyString -> prevDepth st = 0 ->
    Forall (fun kv : string * value =>
              isCondition ctx kv.1 = false /\ isObjectOrArray kv.2 = false) fields ->
    walk ctx baseEntry st (map (fun kv : string * value => mkItem kv.1 kv.2 kv.1 0) fields)
    = map (fun kv : string * value =>
             mkStyleEntry kv.1 kv.2 (Some EmptyString)
               (base_recipe baseEntry) (base_layer baseEntry) (base_slot baseEntry))
        (List.filter (fun kv : string * value => negb (isUndefined kv.2)) fields).
Proof.
  induction fields as [| [k v] fields IH]; intros st Hin Hcond Hdepth Hflat; [reflexivity |].
  inversion Hflat as [| ? ? [Hk Hv] Hrest]; subst. cbn [fst snd] in Hk, Hv.
  cbn [map walk List.filter fst snd].
  unfold visit. cbn [item_value key path depth].
  rewrite Hk, Hin, Hcond, Hdepth.
  destruct v; try discriminate Hv; cbn [isUndefined negb isObjectOrArray andb Nat.eqb map];
    first [ by apply IH
          | change (getResolvedCondition "" (isCondition ctx)) with EmptyString;
            f_equal; by apply IH ].
Qed.

Lemma styleEntries_flat (ctx : CollectorContext) (fields : Dict) (baseEntry : BaseEntry) :
  flatStyles ctx fields ->
  styleEntries ctx (VObj fields) baseEntry = flatEntries ctx fields baseEntry.
Proof.
  intros [Hnodup Hflat]. unfold styleEntries, flatEntries.
  cbn [normalizeStyleObject].
  rewrite normalize_flat_fields;
    [| eapply Forall_impl; [exact Hflat | by intros ? [_ ?]] | exact Hnodup].
  cbn [app].
  rewrite traverse_flat_fields.
  2:{ apply Forall_map. eapply Forall_impl; [exact Hflat | by intros ? [_ ?]]. }
  rewrite walk_flat_fields; [| reflexivity | reflexivity | reflexivity |].
  2:{ apply Forall_map. eapply Forall_impl; [exact Hflat | by intros ? ?]. }
  clear. induction fields as [| [k v] fields IH]; [reflexivity |].
  cbn [map List.filter fst snd]. destruct (negb (isUndefined v)); cbn [map fst snd]; by rewrite IH.
Qed.

Lemma hashStyleObject_flat (ctx : CollectorContext) (fields : Dict) (baseEntry : BaseEntry) :
  flatStyles ctx fields ->
  hashStyleObject ctx ∅ (VObj fields) baseEntry
  = list_to_set (map hashStyleEntry (flatEntries ctx fields baseEntry)).
Proof.
  intros Hflat. unfold hashStyleObject.
  rewrite (styleEntries_flat _ _ _ Hflat), addAll_union. set_solver.
Qed.

(** C5: the hashes depend on the order of the keys.  Inside a condition
    block, a property that follows a nested condition block is hashed under
    the condition of that nested block; when it precedes the nested block it
    is hashed under the condition of its own block.  So two style objects
    that are equal up to key ordering give different hash sets. *)
Theorem hashStyleObject_key_order (ctx : CollectorContext) :
  let nestedFirst :=
    VObj [("_hover", VObj [("_dark", VObj [("color", VStr "white")]); ("bg", VStr "red")])] in
  let nestedLast :=
    VObj [("_hover", VObj [("bg", VStr "red"); ("_dark", VObj [("color", VStr "white")])])] in
  isCondition ctx "_hover" = true ->
  isCondition ctx "_dark" = true ->
  isCondition ctx "color" = false ->
  isCondition ctx "bg" = false ->
  Forall (fun k => normalizeKey ctx k = k) ["_hover"; "_dark"; "color"; "bg"] ->
  sameUpToKeyOrder nestedFirst nestedLast
  /\ hashStyleObject ctx ∅ nestedFirst noBase
     = {[ "color]___[value:white]___[cond:_hover<___>_dark";
          "bg]___[value:red]___[cond:_hover<___>_dark" ]}
  /\ hashStyleObject ctx ∅ nestedLast noBase
     = {[ "bg]___[value:red]___[cond:_hover";
          "color]___[value:white]___[cond:_hover<___>_dark" ]}
  /\ hashStyleObject ctx ∅ nestedFirst noBase ≠ hashStyleObject ctx ∅ nestedLast noBase.
Proof.
  intros nestedFirst nestedLast Hhover Hdark Hcolor Hbg Hkeys.
  rewrite !Forall_cons in Hkeys.
  destruct Hkeys as (Khover & Kdark & Kcolor & Kbg & _).
  assert (Hfirst : map hashStyleEntry (styleEntries ctx nestedFirst noBase)
    = ["color]___[value:white]___[cond:_hover<___>_dark";
       "bg]___[value:red]___[cond:_hover<___>_dark"]).
  { unfold nestedFirst.
    eval_walk ltac:(first [rewrite Khover | rewrite Kdark | rewrite Kcolor | rewrite Kbg
                          | rewrite Hhover | rewrite Hdark | rewrite Hcolor | rewrite Hbg]).
    reflexivity. }
  assert (Hlast : map hashStyleEntry (styleEntries ctx nestedLast noBase)
    = ["bg]___[value:red]___[cond:_hover";
       "color]___[value:white]___[cond:_hover<___>_dark"]).
  { unfold nestedLast.
    eval_walk ltac:(first [rewrite Khover | rewrite Kdark | rewrite Kcolor | rewrite Kbg
                          | rewrite Hhover | rewrite Hdark | rewrite Hcolor | rewrite Hbg]).
    reflexivity. }
  assert (H1 : hashStyleObject ctx ∅ nestedFirst noBase
    = {[ "color]___[value:white]___[cond:_hover<___>_dark";
         "bg]___[value:red]___[cond:_hover<___>_dark" ]}).
  { unfold hashStyleObject. rewrite Hfirst, addAll_union. cbn [list_to_set foldr]. set_solver. }
  assert (H2 : hashStyleObject ctx ∅ nestedLast noBase
    = {[ "bg]___[value:red]___[cond:_hover";
         "color]___[value:white]___[cond:_hover<___>_dark" ]}).
  { unfold hashStyleObject. rewrite Hlast, addAll_union. cbn [list_to_set foldr]. set_solver. }
  split; [| split; [exact H1 | split; [exact H2 |]]].
  - unfold nestedFirst, nestedLast. apply same_value, same_swap.
  - rewrite H1, H2. intros Heq.
    assert (Hin : "bg]___[value:red]___[cond:_hover" ∈
      ({[ "color]___[value:white]___[cond:_hover<___>_dark";
          "bg]___[value:red]___[cond:_hover<___>_dark" ]} : gset string)).
    { rewrite Heq. set_solver. }
    rewrite elem_of_union, !elem_of_singleton in Hin.
    destruct Hin as [Hin | Hin]; discriminate Hin.
Qed.

Lemma hashStyleObject_key_order_witness :
  hashStyleObject Samples.collector ∅
    (VObj [("_hover", VObj [("_dark", VObj [("color", VStr "white")]); ("bg", VStr "red")])])
    noBase
  ≠ hashStyleObject Samples.collector ∅
      (VObj [("_hover", VObj [("bg", VStr "red"); ("_dark", VObj [("color", VStr "white")])])])
      noBase.
Proof.
  apply (hashStyleObject_key_order Samples.collector); try reflexivity.
  repeat constructor.
Defined.

(** ** Recipes *)

Lemma fold_left_invariant {A B : Type} (P : A -> Prop) (f : A -> B -> A) (l : list B) (a : A) :
  P a -> (forall a' b, P a' -> P (f a' b)) -> P (fold_left f l a).
Proof.
  intros Ha Hstep. revert a Ha.
  induction l as [| b l IH]; intros a Ha; simpl; [exact Ha |].
  apply IH, Hstep, Ha.
Qed.

Lemma fold_left_flat_map_map {A B C D : Type} (f : A -> D -> A) (g : C -> D)
    (k : B -> list C) (l : list B) (a : A) :
  fold_left (fun a' x => fold_left (fun a'' y => f a'' (g y)) (k x) a') l a
  = fold_left f (flat_map (fun x => map g (k x)) l) a.
Proof.
  revert a. induction l as [| x l IH]; intros a; simpl; [reflexivity |].
  rewrite fold_left_app, IH. f_equal.
  generalize (k x). intros ys. revert a.
  induction ys as [| y ys IHy]; intros a; simpl; [reflexivity |]. apply IHy.
Qed.

Lemma fold_left_map_arg {A B C : Type} (f : A -> C -> A) (g : B -> C) (l : list B) (a : A) :
  fold_left f (map g l) a = fold_left (fun a' x => f a' (g x)) l a.
Proof.
  revert a. induction l as [| x l IH]; intros a; simpl; [reflexivity |]. apply IH.
Qed.

Lemma atomizing_blocks (ctx : CollectorContext) (blocks : list value) (h : Registries) :
  let h' := fold_left (fun h0 block => processAtomic ctx block h0) blocks h in
  atomic h' = atomizeAll ctx blocks (atomic h)
  /\ compound_variants h' = compound_variants h
  /\ sameRecipeMaps h' h.
Proof.
  revert h. induction blocks as [| block blocks IH]; intros h.
  - repeat split.
  - simpl. destruct (IH (processAtomic ctx block h)) as (Ha & Hc & Hr).
    rewrite Ha, Hc. repeat split; apply Hr.
Qed.

Lemma atomizeAll_elem (ctx : CollectorContext) (blocks : list value) :
  forall (set : gset string) (x : string),
    x ∈ atomizeAll ctx blocks set
    <-> x ∈ set \/ exists block, block ∈ blocks /\ x ∈ hashStyleObject ctx ∅ block noBase.
Proof.
  unfold atomizeAll.
  induction blocks as [| b blocks IH]; intros set x; cbn [fold_left].
  - split; [by left | intros [? | (? & Hin & _)]; [done | by apply elem_of_nil in Hin]].
  - rewrite IH, hashStyleObject_union, elem_of_union. split.
    + intros [[Hb | Hs] | (block & Hin & Hx)].
      * right. exists b. split; [apply list_elem_of_here | done].
      * by left.
      * right. exists block. split; [by apply list_elem_of_further | done].
    + intros [Hs | (block & Hin & Hx)]; [by left; right |].
      apply elem_of_cons in Hin. destruct Hin as [-> | Hin]; [by left; left |].
      right. by exists block.
Qed.

(** The compound-variant block does nothing once the name is in
    [compound_variants]. *)
Lemma processCompound_guarded (name : string) (config : RecipeConfig)
    (each : CompoundVariant -> Registries -> Registries) (h : Registries) :
  name ∈ compound_variants h -> processCompound name config each h = h.
Proof.
  intros Hin. unfold processCompound.
  destruct (compoundVariants config); [| reflexivity].
  by rewrite bool_decide_eq_true_2.
Qed.

Lemma processCompound_first (name : string) (config : RecipeConfig) (cvs : list CompoundVariant)
    (each : CompoundVariant -> Registries -> Registries) (h : Registries) :
  compoundVariants config = Some cvs ->
  name ∉ compound_variants h ->
  processCompound name config each h
  = fold_left (fun h' cv => each cv h') cvs
      (set_compound_variants ({[ name ]} ∪ compound_variants h) h).
Proof.
  intros Hcvs Hnin. unfold processCompound. rewrite Hcvs.
  by rewrite bool_decide_eq_false_2.
Qed.

Lemma processRecipe_known (ctx : CollectorContext) (name : string) (config : RecipeConfig)
    (variants : Dict) (h : Registries) :
  getConfig ctx name = Some config ->
  processRecipe ctx name variants h
  = processCompound name config (fun cv => processAtomic ctx (VObj (css cv)))
      (recipeVariantsAndBase ctx name config variants h).
Proof. intros Hcfg. unfold processRecipe. rewrite Hcfg. reflexivity. Qed.

Lemma recipeVariantsAndBase_atomic (ctx : CollectorContext) (name : string)
    (config : RecipeConfig) (variants : Dict) (h : Registries) :
  atomic (recipeVariantsAndBase ctx name config variants h) = atomic h
  /\ compound_variants (recipeVariantsAndBase ctx name config variants h) = compound_variants h.
Proof.
  unfold recipeVariantsAndBase.
  destruct (base config); [| by split].
  cbn [recipes_base set_recipes].
  destruct (has (recipes_base h) name); by split.
Qed.

Lemma processSlot_atomic (ctx : CollectorContext) (name : string) (config : RecipeConfig)
    (styles : Dict) (h : Registries) (slot : string) :
  atomic (processSlot ctx name config styles h slot) = atomic h
  /\ compound_variants (processSlot ctx name config styles h slot) = compound_variants h.
Proof.
  unfold processSlot.
  destruct (base config) as [b |]; [| by split].
  destruct (obj_get slot b) as [slotBase |]; [| by split].
  match goal with |- context [if ?c then _ else _] => destruct c end; by split.
Qed.

Lemma processCompound_recipes_base (name : string) (config : RecipeConfig)
    (each : CompoundVariant -> Registries -> Registries) (h : Registries) :
  (forall cv h', recipes_base (each cv h') = recipes_base h') ->
  recipes_base (processCompound name config each h) = recipes_base h.
Proof.
  intros Heach. unfold processCompound.
  destruct (compoundVariants config) as [cvs |]; [| reflexivity].
  destruct (bool_decide _); [reflexivity |].
  apply (fold_left_invariant
           (fun h' => recipes_base h' = recipes_base h) (fun h' cv => each cv h')).
  - reflexivity.
  - intros h' cv Hh'. by rewrite Heach.
Qed.

(** Once [recipes_base] has an entry for the name, whatever set it holds,
    the base styles are not atomized. *)
Lemma recipeVariantsAndBase_guarded (ctx : CollectorContext) (name : string)
    (config : RecipeConfig) (variants : Dict) (h : Registries) :
  is_Some (recipes_base h !! name) ->
  recipes_base (recipeVariantsAndBase ctx name config variants h) = recipes_base h.
Proof.
  intros [s Hs]. unfold recipeVariantsAndBase.
  destruct (base config); [| reflexivity].
  cbn [recipes_base set_recipes]. unfold has. by rewrite Hs.
Qed.

(** C3. For a recipe name whose configuration declares base styles: a
    [processRecipe] call in a factory whose [recipes_base] has no entry for
    the name stores there the hashes of the base styles, which for flat base
    styles are the keys [prop]___[value:v]___[recipe:name] of its defined
    properties; a call in a factory whose [recipes_base] has an entry for
    the name, whatever that entry holds, leaves [recipes_base] as it is;
    so after a first call no later [processRecipe] call for the name,
    whatever the variant selections, changes [recipes_base]. *)
Theorem recipe_base_atomized_once (ctx : CollectorContext) (name : string)
    (config : RecipeConfig) (b : Dict) :
  getConfig ctx name = Some config ->
  base config = Some b ->
  let byRecipe := mkBase (Some name) None None in
  (forall first h,
      recipes_base h !! name = None ->
      recipes_base (processRecipe ctx name first h)
      = <[ name := hashStyleObject ctx ∅ (VObj b) byRecipe ]> (recipes_base h))
  /\ (flatStyles ctx b ->
      forall first h,
        recipes_base h !! name = None ->
        recipes_base (processRecipe ctx name first h) !! name
        = Some (list_to_set (map hashStyleEntry (flatEntries ctx b byRecipe))))
  /\ (forall variants h,
         is_Some (recipes_base h !! name) ->
         recipes_base (processRecipe ctx name variants h) = recipes_base h)
  /\ (forall first later h,
         recipes_base
           (fold_left (fun h' variants => processRecipe ctx name variants h') later
              (processRecipe ctx name first h))
         = recipes_base (processRecipe ctx name first h)).
Proof.
  intros Hcfg Hbase byRecipe.
  assert (Hfirst : forall first h,
    recipes_base h !! name = None ->
    recipes_base (processRecipe ctx name first h)
    = <[ name := hashStyleObject ctx ∅ (VObj b) byRecipe ]> (recipes_base h)).
  { intros first h Hnone. rewrite (processRecipe_known _ _ _ _ _ Hcfg).
    rewrite processCompound_recipes_base by reflexivity.
    unfold recipeVariantsAndBase. rewrite Hbase.
    cbn [recipes_base set_recipes]. unfold has. rewrite Hnone.
    cbn [recipes_base set_recipes_base set_recipes].
    unfold hashInto, getOrCreateSet. rewrite Hnone. reflexivity. }
  assert (Hguard : forall variants h,
    is_Some (recipes_base h !! name) ->
    recipes_base (processRecipe ctx name variants h) = recipes_base h).
  { intros variants h Hsome. rewrite (processRecipe_known _ _ _ _ _ Hcfg).
    rewrite processCompound_recipes_base by reflexivity.
    by apply recipeVariantsAndBase_guarded. }
  split_and!.
  - exact Hfirst.
  - intros Hflat first h Hnone.
    rewrite (Hfirst first h Hnone), lookup_insert_eq.
    by rewrite (hashStyleObject_flat _ _ _ Hflat).
  - exact Hguard.
  - intros first later h.
    set (h1 := processRecipe ctx name first h).
    assert (Hsome : is_Some (recipes_base h1 !! name)).
    { unfold h1. destruct (recipes_base h !! name) as [s |] eqn:Hs.
      - rewrite Hguard by (by exists s). by exists s.
      - rewrite (Hfirst first h Hs), lookup_insert_eq. by eexists. }
    apply (fold_left_invariant
             (fun h' => recipes_base h' = recipes_base h1)
             (fun h' variants => processRecipe ctx name variants h')).
    + reflexivity.
    + intros h' variants Hh'. rewrite Hguard; [exact Hh' | by rewrite Hh'].
Qed.

Lemma recipe_base_atomized_once_witness :
  recipes_base (processRecipe Samples.collector "button" [("size", VStr "sm")] fresh) !! "button"
  = Some {[ "fontWeight]___[value:bold]___[recipe:button" ]}
  /\ recipes_base
       (processRecipe Samples.collector "button" [("size", VStr "sm")]
          (set_recipes_base {[ "button" := ∅ ]} fresh))
     = {[ "button" := ∅ ]}
  /\ recipes_base
       (fold_left (fun h' variants => processRecipe Samples.collector "button" variants h')
          [[("size", VStr "sm")]; [("size", VStr "lg")]]
          (processRecipe Samples.collector "button" [] fresh))
     = recipes_base (processRecipe Samples.collector "button" [] fresh).
Proof.
  destruct (recipe_base_atomized_once Samples.collector "button" Samples.button
              [("fontWeight", VStr "bold")] eq_refl eq_refl)
    as (_ & Hhashes & Hguard & Hlater).
  split_and!.
  - rewrite Hhashes; [vm_compute; reflexivity | | reflexivity].
    split; [apply NoDup_singleton | repeat constructor].
  - rewrite Hguard; [reflexivity |].
    cbn [recipes_base set_recipes_base]. rewrite lookup_singleton_eq. by eexists.
  - apply Hlater.
Defined.

(** The scenario of the specification: the recipe [button] processed twice
    with the selection [size: sm] leaves one entry under
    [recipes_base["button"]] and one under [recipes["button"]]. *)
Example button_processed_twice :
  let h := processRecipe Samples.collector "button" [("size", VStr "sm")]
             (processRecipe Samples.collector "button" [("size", VStr "sm")] fresh) in
  recipes_base h !! "button" = Some {[ "fontWeight]___[value:bold]___[recipe:button" ]}
  /\ recipes h !! "button" = Some {[ "size]___[value:sm]___[recipe:button" ]}.
Proof. vm_compute. split; reflexivity. Qed.

Lemma processSlotRecipe_known (ctx : CollectorContext) (name : string) (config : RecipeConfig)
    (variants : Dict) (h : Registries) :
  getConfig ctx name = Some config ->
  processSlotRecipe ctx name variants h
  = processCompound name config
      (fun cv h' =>
         fold_left (fun h'' styles => processAtomic ctx (orEmptyObject styles) h'')
           (obj_values (css cv)) h')
      (fold_left (processSlot ctx name config (mergeVariants config variants)) (slots config) h).
Proof. intros Hcfg. unfold processSlotRecipe. rewrite Hcfg. reflexivity. Qed.

Lemma slots_atomic (ctx : CollectorContext) (name : string) (config : RecipeConfig)
    (styles : Dict) (ss : list string) (h : Registries) :
  atomic (fold_left (processSlot ctx name config styles) ss h) = atomic h
  /\ compound_variants (fold_left (processSlot ctx name config styles) ss h)
     = compound_variants h.
Proof.
  apply (fold_left_invariant
           (fun h' => atomic h' = atomic h /\ compound_variants h' = compound_variants h)).
  - by split.
  - intros h' slot [Ha Hc].
    destruct (processSlot_atomic ctx name config styles h' slot) as [Ha' Hc'].
    split; congruence.
Qed.

(** A call for a name that is in [compound_variants] leaves [atomic] and
    [compound_variants] as they are. *)
Lemma call_guarded (ctx : CollectorContext) (name : string) (h : Registries) (c : RecipeCall) :
  name ∈ compound_variants h ->
  atomic (call ctx name h c) = atomic h
  /\ compound_variants (call ctx name h c) = compound_variants h.
Proof.
  intros Hin. destruct c as [variants | variants]; simpl.
  - unfold processRecipe. destruct (getConfig ctx name) as [config |]; [| by split].
    destruct (recipeVariantsAndBase_atomic ctx name config variants h) as [Ha Hc].
    rewrite processCompound_guarded by (by rewrite Hc). by split.
  - unfold processSlotRecipe. destruct (getConfig ctx name) as [config |]; [| by split].
    destruct (slots_atomic ctx name config (mergeVariants config variants) (slots config) h)
      as [Ha Hc].
    rewrite processCompound_guarded by (by rewrite Hc). by split.
Qed.

(** The first call for a name with compound variants. *)
Lemma call_first (ctx : CollectorContext) (name : string) (config : RecipeConfig)
    (cvs : list CompoundVariant) (h : Registries) (c : RecipeCall) :
  getConfig ctx name = Some config ->
  compoundVariants config = Some cvs ->
  name ∉ compound_variants h ->
  atomic (call ctx name h c) = atomizeAll ctx (compoundStyles c cvs) (atomic h)
  /\ compound_variants (call ctx name h c) = {[ name ]} ∪ compound_variants h.
Proof.
  intros Hcfg Hcvs Hnin. destruct c as [variants | variants]; simpl.
  - rewrite (processRecipe_known _ _ _ _ _ Hcfg).
    destruct (recipeVariantsAndBase_atomic ctx name config variants h) as [Ha Hc].
    rewrite (processCompound_first _ _ cvs) by (by rewrite ?Hc).
    rewrite <- (fold_left_map_arg (fun h0 block => processAtomic ctx block h0)
                  (fun cv => VObj (css cv))).
    match goal with
    | |- context [fold_left _ ?blocks ?h0] =>
        destruct (atomizing_blocks ctx blocks h0) as (Ha' & Hc' & _)
    end.
    rewrite Ha', Hc'. cbn [atomic compound_variants set_compound_variants].
    by rewrite Ha, Hc.
  - rewrite (processSlotRecipe_known _ _ _ _ _ Hcfg).
    destruct (slots_atomic ctx name config (mergeVariants config variants) (slots config) h)
      as [Ha Hc].
    rewrite (processCompound_first _ _ cvs) by (by rewrite ?Hc).
    rewrite (fold_left_flat_map_map (fun h' block => processAtomic ctx block h')
               orEmptyObject (fun cv => obj_values (css cv))).
    match goal with
    | |- context [fold_left _ ?blocks ?h0] =>
        destruct (atomizing_blocks ctx blocks h0) as (Ha' & Hc' & _)
    end.
    rewrite Ha', Hc'. cbn [atomic compound_variants set_compound_variants].
    by rewrite Ha, Hc.
Qed.

(** C4. For a recipe name whose configuration declares compound variants:
    a call of [processRecipe] or [processSlotRecipe] for a name that is not
    in [compound_variants] puts it there and atomizes the style blocks of
    the compound variants into [atomic], so that for a flat block the key
    [prop]___[value:v] of each of its defined properties is in [atomic]
    afterwards; a call for a name that is in [compound_variants] leaves
    [atomic] as it is; so, after the first call, no run of further calls
    for the name, whatever the entry points and the variant selections,
    changes [atomic] or [compound_variants]. *)
Theorem compound_variants_atomized_once (ctx : CollectorContext) (name : string)
    (config : RecipeConfig) (cvs : list CompoundVariant)
    (first : RecipeCall) (later : list RecipeCall) (h : Registries) :
  getConfig ctx name = Some config ->
  compoundVariants config = Some cvs ->
  name ∉ compound_variants h ->
  let h1 := call ctx name h first in
  let h2 := fold_left (call ctx name) later h1 in
  (compound_variants h1 = {[ name ]} ∪ compound_variants h
   /\ atomic h1 = atomizeAll ctx (compoundStyles first cvs) (atomic h))
  /\ (forall fields e,
         VObj fields ∈ compoundStyles first cvs ->
         flatStyles ctx fields ->
         e ∈ flatEntries ctx fields noBase ->
         hashStyleEntry e ∈ atomic h1)
  /\ (atomic h2 = atomic h1 /\ compound_variants h2 = compound_variants h1)
  /\ (forall h' c, name ∈ compound_variants h' -> atomic (call ctx name h' c) = atomic h').
Proof.
  intros Hcfg Hcvs Hnin h1 h2.
  destruct (call_first ctx name config cvs h first Hcfg Hcvs Hnin) as [Ha1 Hc1].
  split; [by split |]. split; [| split].
  - intros fields e Hblock Hflat He. unfold h1. rewrite Ha1.
    apply atomizeAll_elem. right. exists (VObj fields). split; [exact Hblock |].
    rewrite (hashStyleObject_flat _ _ _ Hflat).
    apply elem_of_list_to_set, list_elem_of_fmap. by exists e.
  - unfold h2.
    apply (fold_left_invariant
             (fun h' => atomic h' = atomic h1 /\ compound_variants h' = compound_variants h1)).
    + by split.
    + intros h' c [Ha Hc].
      destruct (call_guarded ctx name h' c) as [Ha' Hc'].
      { rewrite Hc. fold h1 in Hc1. rewrite Hc1. set_solver. }
      split; congruence.
  - intros h' c Hin. by apply call_guarded.
Qed.

Lemma compound_variants_atomized_once_witness :
  "color]___[value:blue" ∈ atomic (call Samples.collector "card" fresh (AsSlotRecipe []))
  /\ atomic (fold_left (call Samples.collector "card")
               [AsSlotRecipe [("size", VStr "sm")]; AsRecipe []]
               (call Samples.collector "card" fresh (AsSlotRecipe [])))
     = atomic (call Samples.collector "card" fresh (AsSlotRecipe [])).
Proof.
  assert (Hnew : "card" ∉ compound_variants fresh) by (vm_compute; set_solver).
  destruct (compound_variants_atomized_once Samples.collector "card" Samples.card
              [mkCompoundVariant [("root", VObj [("color", VStr "blue")]); ("title", VUndef)]]
              (AsSlotRecipe [])
              [AsSlotRecipe [("size", VStr "sm")]; AsRecipe []] fresh
              eq_refl eq_refl Hnew) as (_ & Hhashes & [Hlater _] & _).
  split; [| exact Hlater].
  apply (Hhashes [("color", VStr "blue")]
           (mkStyleEntry "color" (VStr "blue") (Some "") None None None)).
  - apply list_elem_of_here.
  - split; [apply NoDup_singleton | repeat constructor].
  - apply list_elem_of_here.
Defined.

(** ** Unknown names *)

Lemma processAtomic_empty (ctx : CollectorContext) (h : Registries) :
  processAtomic ctx (VObj []) h = h.
Proof. destruct h. reflexivity. Qed.




(** A known pattern is transformed and its props atomized. *)
Example known_pattern_is_processed :
  atomic (processPattern Samples.collector "Stack" [("color", VStr "red")]
            (Some JsxPattern) (Some "Stack") fresh)
  = {[ "display]___[value:flex"; "color]___[value:red" ]}.
Proof. vm_compute. reflexivity. Qed.

(** * Properties of the builder *)

Import Builder.

(** Projections of the worlds and builders that the methods build. *)
Ltac simpl_world :=
  unfold log, set_content, set_context;
  cbn [world builder thrown configCache contentFilesCache next_ctx trace
       context hasEmitted configDependencies hasConfigChanged
       fileCssMap fileModifiedMap ctx_id info cd_context cd_deps depsModifiedMap
       modifiedMap isModified].

(** ** [emit] *)




(** A build cycle run twice, the configuration file touched in between:
    the first [emit()] emits nothing, the second one emits for the context
    loaded by the second [setup()]. *)
Example emit_after_config_change :
  let o1 := Samples.afterSetup in
  let o2 := emit (world o1) (builder o1) in
  let o3 := setup Samples.envTouched None None (world o2) (builder o2) in
  let o4 := emit (world o3) (builder o3) in
  callsSince (world o1) (world o2) = []
  /\ hasConfigChanged (builder o3) = true
  /\ callsSince (world o3) (world o4) = [EmitArtifacts 1].
Proof. vm_compute. repeat split. Qed.

(** ** [extract] *)

Lemma callsSince_app (w w' : World) (evs : list Event) :
  trace w' = trace w ++ evs -> callsSince w w' = evs.
Proof. intros H. unfold callsSince. rewrite H. apply drop_app_length. Qed.

(** [extractFile] by cases. *)
Lemma extractFile_eq (env : Env) (c : PandaContext) (g : string) (w : World)
    (d : ContentData) :
  contentFilesCache w !! ctx_id c = Some d ->
  extractFile env c c g w
  = if bool_decide (fileModifiedMap d !! g = Some (mtimeOf env g)) then w
    else match extracted env c g with
         | Some css =>
             set_content c
               (mkContent
                  (<[ g := mergeCss env (default EmptyString (fileCssMap d !! g)) css ]>
                     (fileCssMap d))
                  (<[ g := mtimeOf env g ]> (fileModifiedMap d)))
               (log (ExtractFile (ctx_id c) g) w)
         | None => log (ExtractFile (ctx_id c) g) w
         end.
Proof.
  intros Hd. unfold extractFile, extracted. rewrite Hd.
  destruct (fileModifiedMap d !! g) as [recorded |] eqn:Hrec.
  - destruct (bool_decide_reflect (mtimeOf env g = recorded)) as [<- | Hne].
    + by rewrite bool_decide_eq_true_2.
    + rewrite bool_decide_eq_false_2 by congruence.
      destruct (extractFile_ext env c g) as [| [css |]]; try reflexivity.
      destruct (nonempty css); reflexivity.
  - rewrite bool_decide_eq_false_2 by congruence.
    destruct (extractFile_ext env c g) as [| [css |]]; try reflexivity.
    destruct (nonempty css); reflexivity.
Qed.

(** One call of [extractFile] for the file [g], in a world that holds the
    content data [d] of the context. *)
Lemma extractFile_step (env : Env) (c : PandaContext) (g : string) (w : World)
    (d : ContentData) :
  contentFilesCache w !! ctx_id c = Some d ->
  exists d' evs,
    contentFilesCache (extractFile env c c g w) !! ctx_id c = Some d'
    /\ trace (extractFile env c c g w) = trace w ++ evs
    /\ (forall f, f ≠ g ->
          fileModifiedMap d' !! f = fileModifiedMap d !! f
          /\ fileCssMap d' !! f = fileCssMap d !! f)
    /\ (forall f, ExtractFile (ctx_id c) f ∈ evs -> f = g)
    /\ (fileModifiedMap d !! g = Some (mtimeOf env g) -> d' = d /\ evs = [])
    /\ (fileModifiedMap d !! g ≠ Some (mtimeOf env g) ->
          evs = [ExtractFile (ctx_id c) g]
          /\ match extracted env c g with
             | Some css =>
                 fileModifiedMap d' !! g = Some (mtimeOf env g)
                 /\ fileCssMap d' !! g
                    = Some (mergeCss env (default EmptyString (fileCssMap d !! g)) css)
             | None => d' = d
             end).
Proof.
  intros Hd. rewrite (extractFile_eq env c g w d Hd).
  assert (Hsingle : forall f, ExtractFile (ctx_id c) f ∈ [ExtractFile (ctx_id c) g] -> f = g).
  { intros f Hin. apply list_elem_of_singleton in Hin. congruence. }
  destruct (bool_decide_reflect (fileModifiedMap d !! g = Some (mtimeOf env g)))
    as [Hsame | Hdiff].
  - exists d, []. rewrite app_nil_r. split_and!; try done.
    intros f Hin. by apply elem_of_nil in Hin.
  - destruct (extracted env c g) as [css |]; simpl_world.
    + eexists _, [ExtractFile (ctx_id c) g]. rewrite lookup_insert_eq.
      split_and!; try done; simpl_world.
      * intros f Hne. by rewrite !lookup_insert_ne.
      * intros _. split; [done |]. by rewrite !lookup_insert_eq.
    + exists d, [ExtractFile (ctx_id c) g]. split_and!; done.
Qed.

(** A run of [extractFile] over a list of files, file by file: a file whose
    recorded time is current is not extracted and keeps its entries (U); a
    file that yields no CSS keeps its entries (D); a listed file whose
    recorded time is not current is extracted and, if it yields CSS, gets
    its time recorded and its CSS merged (B). *)
Lemma extractFiles_spec (env : Env) (c : PandaContext) (files : list string) :
  forall (w : World) (d : ContentData),
    contentFilesCache w !! ctx_id c = Some d ->
    exists d' evs,
      contentFilesCache (extractFiles env c files w) !! ctx_id c = Some d'
      /\ trace (extractFiles env c files w) = trace w ++ evs
      /\ forall f,
           (fileModifiedMap d !! f = Some (mtimeOf env f) ->
              (ExtractFile (ctx_id c) f ∉ evs)
              /\ fileModifiedMap d' !! f = fileModifiedMap d !! f
              /\ fileCssMap d' !! f = fileCssMap d !! f)
           /\ (extracted env c f = None ->
                 fileModifiedMap d' !! f = fileModifiedMap d !! f
                 /\ fileCssMap d' !! f = fileCssMap d !! f)
           /\ (f ∈ files -> fileModifiedMap d !! f ≠ Some (mtimeOf env f) ->
                 ExtractFile (ctx_id c) f ∈ evs
                 /\ forall css, extracted env c f = Some css ->
                      fileModifiedMap d' !! f = Some (mtimeOf env f)
                      /\ fileCssMap d' !! f
                         = Some (mergeCss env (default EmptyString (fileCssMap d !! f)) css)).
Proof.
  induction files as [| g rest IH]; intros w d Hd.
  - exists d, []. rewrite app_nil_r. split_and!; try done.
    intros f. split_and!; try done.
    + intros _. split_and!; try done. apply not_elem_of_nil.
    + intros Hin. by apply elem_of_nil in Hin.
  - destruct (extractFile_step env c g w d Hd)
      as (d1 & evs1 & Hd1 & Htr1 & Hother & Honly & Hsame & Hdiff).
    destruct (IH (extractFile env c c g w) d1 Hd1) as (d' & evs2 & Hd' & Htr2 & Hrest).
    exists d', (evs1 ++ evs2). cbn [extractFiles fold_left].
    change (fold_left (fun w' file => extractFile env c c file w') rest
              (extractFile env c c g w))
      with (extractFiles env c rest (extractFile env c c g w)).
    split; [exact Hd' |]. split; [by rewrite Htr2, Htr1, app_assoc |].
    intros f. destruct (Hrest f) as (HU & HD & HB).
    destruct (decide (f = g)) as [-> | Hne].
    + split_and!.
      * intros Hcur. destruct (Hsame Hcur) as [-> ->]. apply HU, Hcur.
      * intros Hnone.
        destruct (decide (fileModifiedMap d !! g = Some (mtimeOf env g))) as [Hcur | Hold].
        -- destruct (Hsame Hcur) as [-> _]. apply HD, Hnone.
        -- destruct (Hdiff Hold) as [_ Hext]. rewrite Hnone in Hext. subst d1.
           apply HD, Hnone.
      * intros _ Hold. destruct (Hdiff Hold) as [-> Hext]. split.
        -- apply elem_of_app. left. apply list_elem_of_singleton. reflexivity.
        -- intros css Hcss. rewrite Hcss in Hext. destruct Hext as [HM HC].
           destruct (HU HM) as (_ & HM' & HC'). by rewrite HM', HC'.
    + destruct (Hother f Hne) as [HM1 HC1]. split_and!.
      * intros Hcur. rewrite <- HM1 in Hcur. destruct (HU Hcur) as (Hnin & HM' & HC').
        split_and!; [| congruence | congruence].
        intros Hin. apply elem_of_app in Hin. destruct Hin as [Hin | Hin]; [| done].
        apply Hne, Honly, Hin.
      * intros Hnone. destruct (HD Hnone). split; congruence.
      * intros Hin Hold. apply elem_of_cons in Hin. destruct Hin as [Heq | Hin]; [done |].
        rewrite <- HM1 in Hold. destruct (HB Hin Hold) as [Hev Hcss]. split.
        -- apply elem_of_app. by right.
        -- intros css Hext. rewrite <- HC1. by apply Hcss.
Qed.

(** C6, as stated, fails on the code: the modification time is recorded
    after the test [if (!css) return].  The file [src/Plain.tsx], never
    recorded, is parsed during [extract()] and yields no CSS: its
    modification time is not recorded. *)
Lemma extract_mtime_counterexample :
  let o := extract Samples.env (world Samples.afterSetup) (builder Samples.afterSetup) in
  "src/Plain.tsx" ∈ getFiles (info (mkCtx 0 (mkInfo [] (Some "/app") ["src/App.tsx"; "src/Plain.tsx"])))
  /\ context (builder Samples.afterSetup)
     = Some (mkCtx 0 (mkInfo [] (Some "/app") ["src/App.tsx"; "src/Plain.tsx"]))
  /\ mtimeOf Samples.env "src/Plain.tsx" = Ms 9
  /\ ExtractFile 0 "src/Plain.tsx" ∈ callsSince (world Samples.afterSetup) (world o)
  /\ (contentFilesCache (world o) !! 0%nat ≫= fun d => fileModifiedMap d !! "src/Plain.tsx")
     ≠ Some (Ms 9).
Proof.
  vm_compute. split_and!; try reflexivity.
  - set_solver.
  - set_solver.
  - discriminate.
Qed.

(** C6, amended.  During [extract()], a file whose current modification
    time equals the one recorded for it in the content cache is not passed
    to the extractor and keeps its entries in the cache; an in-scope file
    whose modification time differs, or was never recorded, is passed to the
    extractor, and only if a non-empty CSS fragment results is its
    modification time recorded and the fragment merged, by [mergeCss], into
    the CSS accumulated for the file; otherwise its entries stay as they
    were. *)
Theorem extract_skips_current_files (env : Env) (w : World) (b : BuilderState)
    (c : PandaContext) (d : ContentData) :
  context b = Some c ->
  contentFilesCache w !! ctx_id c = Some d ->
  let o := extract env w b in
  thrown o = None
  /\ builder o = b
  /\ exists d',
       contentFilesCache (world o) !! ctx_id c = Some d'
       /\ forall file,
            (fileModifiedMap d !! file = Some (mtimeOf env file) ->
               (ExtractFile (ctx_id c) file ∉ callsSince w (world o))
               /\ fileModifiedMap d' !! file = fileModifiedMap d !! file
               /\ fileCssMap d' !! file = fileCssMap d !! file)
            /\ (file ∈ getFiles (info c) ->
                fileModifiedMap d !! file ≠ Some (mtimeOf env file) ->
                  ExtractFile (ctx_id c) file ∈ callsSince w (world o)
                  /\ match extracted env c file with
                     | Some css =>
                         fileModifiedMap d' !! file = Some (mtimeOf env file)
                         /\ fileCssMap d' !! file
                            = Some (mergeCss env
                                      (default EmptyString (fileCssMap d !! file)) css)
                     | None =>
                         fileModifiedMap d' !! file = fileModifiedMap d !! file
                         /\ fileCssMap d' !! file = fileCssMap d !! file
                     end).
Proof.
  intros Hctx Hd o. unfold o, extract. rewrite Hctx. simpl_world.
  split; [reflexivity |]. split; [reflexivity |].
  destruct (extractFiles_spec env c (getFiles (info c)) w d Hd) as (d' & evs & Hd' & Htr & H).
  exists d'. split; [exact Hd' |].
  rewrite (callsSince_app _ _ _ Htr).
  intros file. destruct (H file) as (HU & HD & HB). split.
  - exact HU.
  - intros Hin Hold. destruct (HB Hin Hold) as [Hev Hcss]. split; [exact Hev |].
    destruct (extracted env c file) as [css |] eqn:Hext.
    + by apply Hcss.
    + by apply HD.
Qed.

Lemma extract_skips_current_files_witness :
  thrown (extract Samples.env (world Samples.afterSetup) (builder Samples.afterSetup)) = None.
Proof.
  apply (extract_skips_current_files Samples.env
           (world Samples.afterSetup) (builder Samples.afterSetup)
           (mkCtx 0 (mkInfo [] (Some "/app") ["src/App.tsx"; "src/Plain.tsx"]))
           (mkContent ∅ ∅)); reflexivity.
Defined.

(** Two cycles over the sample project: the first extracts both files and
    records the one that yields CSS, the second extracts only the other
    one again. *)
Example extract_twice :
  let o1 := extract Samples.env (world Samples.afterSetup) (builder Samples.afterSetup) in
  let o2 := extract Samples.env (world o1) (builder o1) in
  callsSince (world Samples.afterSetup) (world o1)
  = [ExtractFile 0 "src/App.tsx"; ExtractFile 0 "src/Plain.tsx"]
  /\ callsSince (world o1) (world o2) = [ExtractFile 0 "src/Plain.tsx"].
Proof. vm_compute. split; reflexivity. Qed.

(** ** [setup] *)

Lemma scanDeps_modified (env : Env) (prev : option (gmap string Z)) (deps : list string) :
  forall (newModified : gmap string Z) (modified : bool),
    (scanDeps env prev deps newModified modified).2 = modified || anyStale env prev deps.
Proof.
  induction deps as [| file deps IH]; intros newModified modified.
  - simpl. by rewrite orb_false_r.
  - cbn [scanDeps anyStale existsb]. unfold isStale at 1.
    destruct (statSync env file) as [time |]; [| apply IH].
    rewrite IH. fold (anyStale env prev deps).
    match goal with |- (if ?n then _ else _) || _ = _ => destruct n end;
      destruct modified; reflexivity.
Qed.

Lemma invalidate_all (deps : list string) :
  forall w : World,
    let w' := fold_left (fun w0 file => log (InvalidateRequireCache file) w0) deps w in
    configCache w' = configCache w
    /\ contentFilesCache w' = contentFilesCache w
    /\ next_ctx w' = next_ctx w
    /\ trace w' = trace w ++ map InvalidateRequireCache deps.
Proof.
  induction deps as [| file deps IH]; intros w; simpl.
  - by rewrite app_nil_r.
  - destruct (IH (log (InvalidateRequireCache file) w)) as (H1 & H2 & H3 & H4).
    rewrite H1, H2, H3, H4. simpl_world. by rewrite <- app_assoc.
Qed.

(** [checkConfigDeps] by cases: the configuration is modified exactly when
    some dependency is stale. *)
Lemma checkConfigDeps_cases (env : Env) (configPath : string) (deps : list string) (w : World) :
  checkConfigDeps env configPath deps w
  = if anyStale env (recordedDeps w configPath) deps
    then (mkDepsResult (Some (scanDeps env (recordedDeps w configPath) deps ∅ false).1) true,
          fold_left (fun w0 file => log (InvalidateRequireCache file) w0) deps w)
    else (mkDepsResult (recordedDeps w configPath) false, w).
Proof.
  unfold checkConfigDeps. fold (recordedDeps w configPath).
  pose proof (scanDeps_modified env (recordedDeps w configPath) deps ∅ false) as Hmod.
  destruct (scanDeps env (recordedDeps w configPath) deps ∅ false) as [newModified modified].
  cbn [snd orb] in Hmod. rewrite <- Hmod. cbn [fst].
  destruct modified; reflexivity.
Qed.

Lemma anyStale_on_disk (env : Env) (prev : option (gmap string Z)) (deps : list string) :
  anyStale env prev deps
  = anyStale env prev
      (List.filter (fun file => bool_decide (is_Some (statSync env file))) deps).
Proof.
  unfold anyStale. induction deps as [| file deps IH]; [reflexivity |].
  cbn [List.filter existsb].
  destruct (statSync env file) as [time |] eqn:Hstat.
  - rewrite bool_decide_eq_true_2 by eauto. cbn [existsb]. by rewrite IH.
  - rewrite bool_decide_eq_false_2 by (intros [? ?]; discriminate).
    unfold isStale at 1. rewrite Hstat. exact IH.
Qed.

(** C7, as stated, fails on the code.  With no entry in the config cache
    for the path and no dependency file to compare, no dependency is newer
    or untracked, and yet [setup()] loads the configuration and replaces
    the context: the branch taken when there is no cache entry. *)
Lemma setup_uncached_counterexample :
  let o := setup Samples.envWithoutDeps None None emptyWorld newBuilder in
  setupConfigDeps Samples.envWithoutDeps "panda.config.ts" None newBuilder = []
  /\ anyStale Samples.envWithoutDeps (recordedDeps emptyWorld "panda.config.ts")
       (setupConfigDeps Samples.envWithoutDeps "panda.config.ts" None newBuilder) = false
  /\ hasConfigChanged (builder o) = false
  /\ callsSince emptyWorld (world o) = [LoadConfig "panda.config.ts"]
  /\ context (builder o)
     = Some (mkCtx 0 (mkInfo [] (Some "/app") ["src/App.tsx"; "src/Plain.tsx"])).
Proof. vm_compute. split_and!; reflexivity. Qed.

(** C7, amended.  [setup()] loads the configuration and replaces the
    context exactly when some configuration-dependency file that is on disk
    has a modification time newer than its last-recorded value or was not
    tracked for the configuration path, or when there is no cached context
    for the path; the loaded context is a new one, stored in the config
    cache.  When no dependency is stale and a cached context exists, the
    cached context is reused, its source files are reloaded, and nothing is
    loaded.  Dependency files missing from disk do not count in the
    comparison. *)
Theorem setup_reloads_when_stale_or_uncached (env : Env)
    (opt_configPath opt_cwd : option string) (w : World) (b : BuilderState)
    (configPath : string) :
  setupConfigPath env opt_configPath = Some configPath ->
  let deps := setupConfigDeps env configPath opt_cwd b in
  let stale := anyStale env (recordedDeps w configPath) deps in
  let o := setup env opt_configPath opt_cwd w b in
  (LoadConfig configPath ∈ callsSince w (world o)
   <-> stale = true \/ configCache w !! configPath = None)
  /\ (forall i,
         loadConfigAndCreateContext env configPath = Some i ->
         stale = true \/ configCache w !! configPath = None ->
         thrown o = None
         /\ context (builder o) = Some (mkCtx (next_ctx w) i)
         /\ cd_context <$> configCache (world o) !! configPath = Some (mkCtx (next_ctx w) i))
  /\ (forall cache,
         stale = false ->
         configCache w !! configPath = Some cache ->
         thrown o = None
         /\ context (builder o) = Some (cd_context cache)
         /\ callsSince w (world o) = [ReloadSourceFiles (ctx_id (cd_context cache))]
         /\ configCache (world o) = configCache w)
  /\ stale
     = anyStale env (recordedDeps w configPath)
         (List.filter (fun file => bool_decide (is_Some (statSync env file))) deps).
Proof.
  intros Hpath deps stale o.
  assert (Ho : o =
    if stale then
      match loadConfigAndCreateContext env configPath with
      | Some i =>
          let ctx := mkCtx (next_ctx w) i in
          mkOutcome
            (mkWorld
               (<[ configPath :=
                     mkConfigData ctx (setOf [] (dependencies i))
                       (Some (scanDeps env (recordedDeps w configPath) deps ∅ false).1) ]>
                  (configCache w))
               (<[ next_ctx w := mkContent ∅ ∅ ]> (contentFilesCache w))
               (S (next_ctx w))
               (trace w ++ map InvalidateRequireCache deps
                  ++ [LoadConfig configPath; CallHookConfigChange (next_ctx w);
                      ReloadSourceFiles (next_ctx w)]))
            (mkBuilder (Some ctx) (hasEmitted b) deps true) None
      | None =>
          mkOutcome
            (mkWorld (configCache w) (contentFilesCache w) (next_ctx w)
               (trace w ++ map InvalidateRequireCache deps ++ [LoadConfig configPath]))
            (mkBuilder (context b) (hasEmitted b) deps true) (Some LoadFailed)
      end
    else
      match configCache w !! configPath with
      | Some cache =>
          mkOutcome (log (ReloadSourceFiles (ctx_id (cd_context cache))) w)
            (mkBuilder (Some (cd_context cache)) (hasEmitted b) deps false) None
      | None =>
          setupContext env configPath (recordedDeps w configPath) w
            (mkBuilder (context b) (hasEmitted b) deps false)
      end).
  { unfold o, setup. rewrite Hpath. fold deps.
    rewrite checkConfigDeps_cases. fold stale.
    destruct stale.
    - destruct (invalidate_all deps w) as (H1 & H2 & H3 & H4).
      set (w1 := fold_left (fun w0 file => log (InvalidateRequireCache file) w0) deps w) in *.
      unfold reloadModified, setupContext. simpl_world.
      destruct (loadConfigAndCreateContext env configPath) as [i |]; simpl_world.
      + rewrite lookup_insert_eq. simpl_world.
        rewrite H1, H2, H3, H4. by rewrite <- !app_assoc.
      + rewrite H1, H2, H3, H4. by rewrite <- !app_assoc.
    - unfold reloadModified. simpl_world.
      destruct (configCache w !! configPath); reflexivity. }
  clearbody o. subst o.
  split_and!.
  - destruct stale.
    + destruct (loadConfigAndCreateContext env configPath); simpl_world;
        (erewrite callsSince_app by (simpl_world; reflexivity));
        (split; [by left | intros _; set_solver]).
    + destruct (configCache w !! configPath) as [cache |]; simpl_world.
      * erewrite callsSince_app by (simpl_world; reflexivity). split.
        -- intros Hin. apply list_elem_of_singleton in Hin. discriminate.
        -- intros [? | ?]; discriminate.
      * unfold setupContext. split; [by right | intros _].
        destruct (loadConfigAndCreateContext env configPath); simpl_world;
          (erewrite callsSince_app by (simpl_world; reflexivity)); set_solver.
  - intros i Hload Hwhy. destruct stale.
    + rewrite Hload. simpl_world. by rewrite lookup_insert_eq.
    + destruct Hwhy as [? | Hnone]; [discriminate |]. rewrite Hnone.
      unfold setupContext. rewrite Hload. simpl_world. by rewrite lookup_insert_eq.
  - intros cache Hfresh Hcache. rewrite Hfresh, Hcache. simpl_world.
    split_and!; try reflexivity.
    erewrite callsSince_app by (simpl_world; reflexivity). reflexivity.
  - apply anyStale_on_disk.
Qed.

Lemma setup_reloads_when_stale_or_uncached_witness :
  LoadConfig "panda.config.ts"
    ∈ callsSince (world Samples.afterSetup)
        (world (setup Samples.envTouched None None
                  (world Samples.afterSetup) (builder Samples.afterSetup))).
Proof.
  apply (proj1 (setup_reloads_when_stale_or_uncached Samples.envTouched None None
                  (world Samples.afterSetup) (builder Samples.afterSetup)
                  "panda.config.ts" eq_refl)).
  left. reflexivity.
Defined.

(** The reload scenario of the specification: with the dependency times
    unchanged the cached context is reused; with the configuration file
    touched the context is rebuilt. *)
Example setup_again :
  let o1 := Samples.afterSetup in
  let same := setup Samples.env None None (world o1) (builder o1) in
  let touched := setup Samples.envTouched None None (world o1) (builder o1) in
  callsSince (world o1) (world same) = [ReloadSourceFiles 0]
  /\ context (builder same) = context (builder o1)
  /\ callsSince (world o1) (world touched)
     = [InvalidateRequireCache "panda.config.ts"; LoadConfig "panda.config.ts";
        CallHookConfigChange 1; ReloadSourceFiles 1]
  /\ ctx_id <$> context (builder touched) = Some 1.
Proof. vm_compute. split_and!; reflexivity. Qed.

(** * Further properties of the hash factory *)

(** ** The condition resolver and the hash key *)

Lemma filter_length_le_all {A : Type} (f : A -> bool) (l : list A) :
  length (List.filter f l) <= length l.
Proof.
  induction l as [| x l IH]; simpl; [lia |]. destruct (f x); simpl; lia.
Qed.

Lemma filter_keeps_all {A : Type} (f : A -> bool) (l : list A) :
  length (List.filter f l) = length l -> List.filter f l = l.
Proof.
  induction l as [| x l IH]; simpl; [reflexivity |].
  destruct (f x); simpl; intros Hlen.
  - f_equal. apply IH. lia.
  - pose proof (filter_length_le_all f l). lia.
Qed.

(** X1. On a non-empty path [getResolvedCondition] always returns the kept
    segments rejoined with the separator: when it returns its input
    unchanged, the input is that rejoining. *)
Theorem getResolvedCondition_rejoins (cond : string) (isCond : string -> bool) :
  nonempty cond = true ->
  getResolvedCondition cond isCond = join conditionSeparator (keptSegments cond isCond).
Proof.
  intros Hne. unfold getResolvedCondition, keptSegments. rewrite Hne. cbn [negb].
  assert (Hparts : split conditionSeparator cond <> []) by apply split_go_not_nil.
  assert (Hjoin : join conditionSeparator (split conditionSeparator cond) = cond)
    by (apply join_split; discriminate).
  set (parts := split conditionSeparator cond) in *.
  pose proof (filter_length_le_all (fun v => negb (isBaseCondition v)) parts) as Hle.
  fold (filterBaseConditions parts) in Hle.
  destruct (nonempty (hd EmptyString parts) && negb (isCond (hd EmptyString parts))).
  - destruct (Nat.eqb_spec (length parts) (length (tl (filterBaseConditions parts))))
      as [Heq | Hneq]; cbn [negb]; [| reflexivity].
    exfalso. destruct parts as [| p parts']; [done |].
    destruct (filterBaseConditions (p :: parts')) as [| q l]; simpl in *; lia.
  - destruct (Nat.eqb_spec (length parts) (length (filterBaseConditions parts)))
      as [Heq | Hneq]; cbn [negb]; [| reflexivity].
    unfold filterBaseConditions in *. rewrite filter_keeps_all by lia. by rewrite Hjoin.
Qed.

Lemma getResolvedCondition_rejoins_witness :
  getResolvedCondition "_hover<___>_dark" (fun _ => true)
  = join conditionSeparator (keptSegments "_hover<___>_dark" (fun _ => true)).
Proof. apply (getResolvedCondition_rejoins "_hover<___>_dark" (fun _ => true)). reflexivity. Defined.

Lemma join_snoc (sep : string) (parts : list string) (x : string) :
  parts <> [] -> join sep (parts ++ [x]) = join sep parts +:+ sep +:+ x.
Proof.
  induction parts as [| p parts IH]; [done |]. intros _.
  destruct parts as [| q parts]; [reflexivity |].
  change (join sep ((p :: q :: parts) ++ [x]))
    with (p +:+ sep +:+ join sep ((q :: parts) ++ [x])).
  rewrite IH by discriminate.
  change (join sep (p :: q :: parts)) with (p +:+ sep +:+ join sep (q :: parts)).
  by rewrite !string_app_assoc.
Qed.

Lemma string_app_self (x y : string) : x +:+ y = x -> y = EmptyString.
Proof. intros H. apply (String.app_inj x). by rewrite string_app_empty_r. Qed.

Lemma part_cases (label : string) (field : option string) :
  (default EmptyString field = EmptyString /\ part label field = [])
  \/ (default EmptyString field <> EmptyString
      /\ part label field = [label +:+ default EmptyString field]).
Proof.
  destruct field as [[| c s] |]; simpl; [by left | right | by left].
  split; [discriminate | reflexivity].
Qed.

(** X2. Two entries that differ at most in their slot have the same hash
    key only if they have the same slot (an absent slot counting as the
    empty one): the entries of two slots never collapse into one. *)
Theorem hashStyleEntry_slot_injective (p : string) (v : value)
    (c r l s1 s2 : option string) :
  hashStyleEntry (mkStyleEntry p v c r l s1) = hashStyleEntry (mkStyleEntry p v c r l s2) ->
  slotOf (mkStyleEntry p v c r l s1) = slotOf (mkStyleEntry p v c r l s2).
Proof.
  unfold hashStyleEntry, slotOf. cbn [prop entry_value cond recipe layer slot].
  rewrite !(app_assoc _ _ (part "slot:" _)).
  set (front := [p +:+ separator +:+ "value:" +:+ to_string v] ++ part "cond:" c
                  ++ part "recipe:" r ++ part "layer:" l).
  assert (Hfront : front <> []) by (unfold front; cbn; discriminate).
  destruct (part_cases "slot:" s1) as [[E1 P1] | [E1 P1]],
           (part_cases "slot:" s2) as [[E2 P2] | [E2 P2]];
    rewrite P1, P2, ?app_nil_r, ?join_snoc by exact Hfront; intros Heq.
  - congruence.
  - exfalso. symmetry in Heq. apply string_app_self in Heq. discriminate Heq.
  - exfalso. apply string_app_self in Heq. discriminate Heq.
  - by do 3 apply String.app_inj in Heq.
Qed.

Lemma hashStyleEntry_slot_injective_witness :
  slotOf (mkStyleEntry "p" (VNum 4) None (Some "card") None None)
  = slotOf (mkStyleEntry "p" (VNum 4) None (Some "card") None (Some "")).
Proof.
  apply (hashStyleEntry_slot_injective "p" (VNum 4) None (Some "card") None
           None (Some "")).
  reflexivity.
Defined.

(** ** The walk *)

Lemma visit_entry (ctx : CollectorContext) (b : BaseEntry) (st st' : WalkState)
    (it : CallbackItem) (e : StyleEntry) :
  visit ctx b st it = (st', Some e) ->
  isObjectOrArray (entry_value e) = false
  /\ entry_value e = item_value it
  /\ entry_value e <> VUndef
  /\ is_Some (cond e)
  /\ recipe e = base_recipe b /\ layer e = base_layer b /\ slot e = base_slot b.
Proof.
  unfold visit.
  destruct (item_value it) as [| | bv | n | sv | items | fields] eqn:Hv;
    try discriminate;
    destruct (isCondition ctx (key it)); cbn [isObjectOrArray];
    try discriminate;
    repeat match goal with
           | |- context [if ?c then _ else _] => destruct c
           end;
    intros [= _ <-]; cbn [entry_value cond recipe layer slot isObjectOrArray];
    split_and!; try done; by eexists.
Qed.

(** X3. Every entry [hashStyleObject] hashes has a leaf value (never an
    object, an array or [undefined]), a [cond] field, and the [recipe],
    [layer] and [slot] of the base entry it was given. *)
Theorem styleEntries_are_leaves (ctx : CollectorContext) (obj : value) (b : BaseEntry) :
  Forall
    (fun e =>
       isObjectOrArray (entry_value e) = false
       /\ entry_value e <> VUndef
       /\ is_Some (cond e)
       /\ recipe e = base_recipe b /\ layer e = base_layer b /\ slot e = base_slot b)
    (styleEntries ctx obj b).
Proof.
  unfold styleEntries.
  generalize (traverse conditionSeparator (normalizeStyleObject ctx obj)) as items.
  generalize initialWalk as st.
  intros st items. revert st.
  induction items as [| it items IH]; intros st; cbn [walk]; [constructor |].
  destruct (visit ctx b st it) as [st' [e |]] eqn:Hvisit; [| apply IH].
  constructor; [| apply IH].
  destruct (visit_entry ctx b st st' it e Hvisit) as (H1 & _ & H3 & H4 & H5 & H6 & H7).
  by split_and!.
Qed.

(** ** The registries *)

(** X4. [processAtomic] is idempotent and its calls commute: atomizing a
    style object a second time changes nothing, and the registries do not
    depend on the order in which style objects are atomized. *)
Theorem processAtomic_idempotent_commutative (ctx : CollectorContext)
    (a b : value) (h : Registries) :
  processAtomic ctx a (processAtomic ctx a h) = processAtomic ctx a h
  /\ processAtomic ctx a (processAtomic ctx b h) = processAtomic ctx b (processAtomic ctx a h).
Proof.
  unfold processAtomic, set_atomic; cbn [atomic compound_variants recipes recipes_base
    recipes_slots recipes_slots_base].
  split; f_equal.
  - rewrite (hashStyleObject_union ctx (hashStyleObject ctx (atomic h) a noBase)).
    rewrite (hashStyleObject_union ctx (atomic h)). set_solver.
  - rewrite (hashStyleObject_union ctx (hashStyleObject ctx (atomic h) b noBase)).
    rewrite (hashStyleObject_union ctx (hashStyleObject ctx (atomic h) a noBase)).
    rewrite !(hashStyleObject_union ctx (atomic h)). set_solver.
Qed.

Lemma mapGrows_refl (m : gmap string (gset string)) : mapGrows m m.
Proof. intros k s Hk. by exists s. Qed.

Lemma mapGrows_trans (m1 m2 m3 : gmap string (gset string)) :
  mapGrows m1 m2 -> mapGrows m2 m3 -> mapGrows m1 m3.
Proof.
  intros H12 H23 k s Hk.
  destruct (H12 k s Hk) as (s2 & Hk2 & Hs2).
  destruct (H23 k s2 Hk2) as (s3 & Hk3 & Hs3).
  exists s3. split; [done | set_solver].
Qed.

Lemma grows_refl (h : Registries) : grows h h.
Proof. unfold grows. split_and!; try done; apply mapGrows_refl. Qed.

Lemma grows_trans (h1 h2 h3 : Registries) : grows h1 h2 -> grows h2 h3 -> grows h1 h3.
Proof.
  intros (A1 & B1 & C1 & D1 & E1 & F1) (A2 & B2 & C2 & D2 & E2 & F2).
  unfold grows. split_and!; [set_solver | set_solver | ..]; by eapply mapGrows_trans.
Qed.

Lemma fold_left_grows {B : Type} (f : Registries -> B -> Registries) (l : list B)
    (h : Registries) :
  (forall h' x, grows h' (f h' x)) -> grows h (fold_left f l h).
Proof.
  intros Hstep. apply (fold_left_invariant (fun h' => grows h h')).
  - apply grows_refl.
  - intros h' x Hh'. eapply grows_trans; [exact Hh' | apply Hstep].
Qed.

Lemma hashInto_grows (ctx : CollectorContext) (m : gmap string (gset string))
    (k : string) (obj : value) (b : BaseEntry) :
  mapGrows m (hashInto ctx m k obj b).
Proof.
  intros k' s Hk'. unfold hashInto, getOrCreateSet.
  destruct (decide (k = k')) as [-> | Hne].
  - rewrite lookup_insert_eq, Hk'. cbn [default].
    eexists. split; [reflexivity |]. rewrite hashStyleObject_union. set_solver.
  - rewrite lookup_insert_ne by done. by exists s.
Qed.

Lemma processAtomic_grows (ctx : CollectorContext) (styles : value) (h : Registries) :
  grows h (processAtomic ctx styles h).
Proof.
  unfold grows, processAtomic, set_atomic; cbn [atomic compound_variants recipes
    recipes_base recipes_slots recipes_slots_base].
  split_and!; try done; try apply mapGrows_refl.
  rewrite hashStyleObject_union. set_solver.
Qed.

Lemma processCompound_grows (name : string) (config : RecipeConfig)
    (each : CompoundVariant -> Registries -> Registries) (h : Registries) :
  (forall cv h', grows h' (each cv h')) -> grows h (processCompound name config each h).
Proof.
  intros Heach. unfold processCompound.
  destruct (compoundVariants config) as [cvs |]; [| apply grows_refl].
  destruct (bool_decide _); [apply grows_refl |].
  eapply grows_trans; [| apply fold_left_grows; intros; apply Heach].
  unfold grows, set_compound_variants; cbn [atomic compound_variants recipes
    recipes_base recipes_slots recipes_slots_base].
  split_and!; try done; try apply mapGrows_refl. set_solver.
Qed.

Lemma recipeVariantsAndBase_grows (ctx : CollectorContext) (name : string)
    (config : RecipeConfig) (variants : Dict) (h : Registries) :
  grows h (recipeVariantsAndBase ctx name config variants h).
Proof.
  unfold recipeVariantsAndBase.
  assert (H1 : grows h
    (set_recipes (hashInto ctx (recipes h) name (VObj (mergeVariants config variants))
                    (mkBase (Some name) None None)) h)).
  { unfold grows, set_recipes; cbn [atomic compound_variants recipes
      recipes_base recipes_slots recipes_slots_base].
    split_and!; try done; try apply mapGrows_refl. apply hashInto_grows. }
  destruct (base config) as [b |]; [| exact H1].
  match goal with |- context [if ?c then _ else _] => destruct c end; [exact H1 |].
  eapply grows_trans; [exact H1 |].
  unfold grows, set_recipes_base; cbn [atomic compound_variants recipes
    recipes_base recipes_slots recipes_slots_base set_recipes].
  split_and!; try done; try apply mapGrows_refl. apply hashInto_grows.
Qed.

Lemma processSlot_grows (ctx : CollectorContext) (name : string) (config : RecipeConfig)
    (styles : Dict) (h : Registries) (s : string) :
  grows h (processSlot ctx name config styles h s).
Proof.
  unfold processSlot.
  assert (H1 : grows h
    (set_recipes_slots (hashInto ctx (recipes_slots h) (getSlotKey ctx name s) (VObj styles)
                          (mkBase (Some name) None (Some s))) h)).
  { unfold grows, set_recipes_slots; cbn [atomic compound_variants recipes
      recipes_base recipes_slots recipes_slots_base].
    split_and!; try done; try apply mapGrows_refl. apply hashInto_grows. }
  destruct (base config) as [b |]; [| exact H1].
  destruct (obj_get s b) as [slotBase |]; [| exact H1].
  match goal with |- context [if ?c then _ else _] => destruct c end; [| exact H1].
  eapply grows_trans; [exact H1 |].
  unfold grows, set_recipes_slots_base; cbn [atomic compound_variants recipes
    recipes_base recipes_slots recipes_slots_base set_recipes_slots].
  split_and!; try done; try apply mapGrows_refl. apply hashInto_grows.
Qed.

Lemma processStyleProps_grows (ctx : CollectorContext) (props : Dict) (h : Registries) :
  grows h (processStyleProps ctx props h).
Proof.
  unfold processStyleProps.
  destruct (obj_get "css" (filterStyleProps ctx props)) as [c |];
    [destruct (truthy c) |]; try apply processAtomic_grows.
  eapply grows_trans; apply processAtomic_grows.
Qed.

Lemma processAtomicRecipe_grows (ctx : CollectorContext) (recipe : AtomicRecipe)
    (h : Registries) :
  grows h (processAtomicRecipe ctx recipe h).
Proof.
  unfold processAtomicRecipe.
  eapply grows_trans; [apply processAtomic_grows |].
  eapply grows_trans; [| apply fold_left_grows; intros; apply processAtomic_grows].
  apply fold_left_grows. intros h' variant.
  apply fold_left_grows. intros; apply processAtomic_grows.
Qed.

(** X5. No entry point ever removes anything: after [processAtomic],
    [processStyleProps], [processRecipe], [processSlotRecipe],
    [processPattern], [processAtomicRecipe] or [processAtomicSlotRecipe],
    every hash of [atomic], every name of [compound_variants] and every key
    of the four recipe maps, with all its hashes, is still there. *)
Theorem registries_only_grow (ctx : CollectorContext) (h : Registries) :
  (forall styles, grows h (processAtomic ctx styles h))
  /\ (forall props, grows h (processStyleProps ctx props h))
  /\ (forall name variants, grows h (processRecipe ctx name variants h))
  /\ (forall name variants, grows h (processSlotRecipe ctx name variants h))
  /\ (forall name props type jsxName, grows h (processPattern ctx name props type jsxName h))
  /\ (forall recipe, grows h (processAtomicRecipe ctx recipe h))
  /\ (forall slots, grows h (processAtomicSlotRecipe ctx slots h)).
Proof.
  split_and!.
  - intros. apply processAtomic_grows.
  - intros. apply processStyleProps_grows.
  - intros name variants. unfold processRecipe.
    destruct (getConfig ctx name) as [config |]; [| apply grows_refl].
    eapply grows_trans; [apply recipeVariantsAndBase_grows |].
    apply processCompound_grows. intros; apply processAtomic_grows.
  - intros name variants. unfold processSlotRecipe.
    destruct (getConfig ctx name) as [config |]; [| apply grows_refl].
    apply (grows_trans _
             (fold_left (processSlot ctx name config (mergeVariants config variants))
                (slots config) h)).
    { apply fold_left_grows. intros; apply processSlot_grows. }
    apply processCompound_grows. intros cv h'.
    apply fold_left_grows. intros; apply processAtomic_grows.
  - intros. unfold processPattern. apply processStyleProps_grows.
  - intros. apply processAtomicRecipe_grows.
  - intros slots. unfold processAtomicSlotRecipe.
    apply fold_left_grows. intros; apply processAtomicRecipe_grows.
Qed.

Lemma registries_eq (h h' : Registries) :
  atomic h = atomic h' ->
  compound_variants h = compound_variants h' ->
  sameRecipeMaps h h' ->
  h = h'.
Proof.
  destruct h, h'. unfold sameRecipeMaps. cbn. intros -> -> (-> & -> & -> & ->). reflexivity.
Qed.

Lemma processAtomic_sameRecipeMaps (ctx : CollectorContext) (styles : value) (h : Registries) :
  sameRecipeMaps (processAtomic ctx styles h) h.
Proof. by repeat split. Qed.

Lemma processCompound_sameRecipeMaps (name : string) (config : RecipeConfig)
    (each : CompoundVariant -> Registries -> Registries) (h : Registries) :
  (forall cv h', sameRecipeMaps (each cv h') h') ->
  sameRecipeMaps (processCompound name config each h) h.
Proof.
  intros Heach. unfold processCompound.
  destruct (compoundVariants config) as [cvs |]; [| by repeat split].
  destruct (bool_decide _); [by repeat split |].
  apply (fold_left_invariant (fun h' => sameRecipeMaps h' h) (fun h' cv => each cv h')).
  - by repeat split.
  - intros h' cv (A & B & C & D). destruct (Heach cv h') as (A' & B' & C' & D').
    unfold sameRecipeMaps. split_and!; congruence.
Qed.

Lemma recipes_recipeVariantsAndBase (ctx : CollectorContext) (name : string)
    (config : RecipeConfig) (variants : Dict) (h : Registries) :
  recipes (recipeVariantsAndBase ctx name config variants h)
  = hashInto ctx (recipes h) name (VObj (mergeVariants config variants))
      (mkBase (Some name) None None)
  /\ recipes_slots (recipeVariantsAndBase ctx name config variants h) = recipes_slots h
  /\ recipes_slots_base (recipeVariantsAndBase ctx name config variants h)
     = recipes_slots_base h
  /\ (forall k, k <> name ->
        recipes_base (recipeVariantsAndBase ctx name config variants h) !! k
        = recipes_base h !! k)
  /\ (forall b, base config = Some b ->
        has (recipes_base (recipeVariantsAndBase ctx name config variants h)) name = true).
Proof.
  unfold recipeVariantsAndBase.
  destruct (base config) as [b |]; cbn [recipes_base set_recipes].
  - destruct (has (recipes_base h) name) eqn:Hhas;
      cbn [recipes recipes_base recipes_slots recipes_slots_base set_recipes set_recipes_base].
    + by split_and!.
    + split_and!; try done.
      * intros k Hk. unfold hashInto. by rewrite lookup_insert_ne.
      * intros _ _. unfold has, hashInto. by rewrite lookup_insert_eq.
  - cbn [recipes recipes_base recipes_slots recipes_slots_base set_recipes].
    by split_and!.
Qed.

Lemma hashInto_idempotent (ctx : CollectorContext) (m : gmap string (gset string))
    (k : string) (obj : value) (b : BaseEntry) :
  hashInto ctx (hashInto ctx m k obj b) k obj b = hashInto ctx m k obj b.
Proof.
  unfold hashInto, getOrCreateSet. rewrite lookup_insert_eq. cbn [default].
  rewrite insert_insert_eq. f_equal.
  generalize (default ∅ (m !! k)). intros s0.
  rewrite (hashStyleObject_union ctx (hashStyleObject ctx s0 obj b)).
  rewrite (hashStyleObject_union ctx s0).
  generalize (hashStyleObject ctx ∅ obj b). intros H. set_solver.
Qed.

(** A second pass over the selection and the base of a recipe changes
    nothing. *)
Lemma recipeVariantsAndBase_fixed (ctx : CollectorContext) (name : string)
    (config : RecipeConfig) (variants : Dict) (h h' : Registries) :
  recipes h' = recipes (recipeVariantsAndBase ctx name config variants h) ->
  recipes_base h' = recipes_base (recipeVariantsAndBase ctx name config variants h) ->
  recipeVariantsAndBase ctx name config variants h' = h'.
Proof.
  intros Hr Hb.
  destruct (recipes_recipeVariantsAndBase ctx name config variants h)
    as (Hrec & _ & _ & _ & Hhas).
  assert (Hfix : hashInto ctx (recipes h') name (VObj (mergeVariants config variants))
                   (mkBase (Some name) None None) = recipes h').
  { rewrite Hr, Hrec. apply hashInto_idempotent. }
  unfold recipeVariantsAndBase. rewrite Hfix.
  assert (Hset : set_recipes (recipes h') h' = h') by (by destruct h').
  rewrite Hset.
  destruct (base config) as [b |]; [| reflexivity].
  rewrite Hb, (Hhas b eq_refl). reflexivity.
Qed.

(** X6. [processRecipe] is idempotent: a second call with the same name and
    the same selection leaves every registry as the first call left it. *)
Theorem processRecipe_idempotent (ctx : CollectorContext) (name : string)
    (variants : Dict) (h : Registries) :
  processRecipe ctx name variants (processRecipe ctx name variants h)
  = processRecipe ctx name variants h.
Proof.
  destruct (getConfig ctx name) as [config |] eqn:Hcfg.
  2: { unfold processRecipe. by rewrite Hcfg. }
  set (h2 := processRecipe ctx name variants h).
  assert (Hmaps : sameRecipeMaps h2 (recipeVariantsAndBase ctx name config variants h)).
  { unfold h2. rewrite (processRecipe_known _ _ _ _ _ Hcfg).
    apply processCompound_sameRecipeMaps. intros; apply processAtomic_sameRecipeMaps. }
  destruct Hmaps as (Hr & Hb & _ & _).
  rewrite (processRecipe_known _ _ _ _ h2 Hcfg).
  rewrite (recipeVariantsAndBase_fixed ctx name config variants h h2 Hr Hb).
  destruct (compoundVariants config) as [cvs |] eqn:Hcvs.
  - apply processCompound_guarded.
    destruct (decide (name ∈ compound_variants h)) as [Hin | Hnin].
    + destruct (call_guarded ctx name h (AsRecipe variants) Hin) as [_ Hc].
      cbn [call] in Hc. fold h2 in Hc. by rewrite Hc.
    + destruct (call_first ctx name config cvs h (AsRecipe variants) Hcfg Hcvs Hnin)
        as [_ Hc].
      cbn [call] in Hc. fold h2 in Hc. rewrite Hc. set_solver.
  - unfold processCompound. by rewrite Hcvs.
Qed.

(** X7. [processRecipe] touches only what belongs to its recipe name: the
    slot maps are left as they are, and so are the entries of [recipes] and
    [recipes_base] under every other name. *)
Theorem processRecipe_isolated (ctx : CollectorContext) (name : string)
    (variants : Dict) (h : Registries) :
  let h' := processRecipe ctx name variants h in
  recipes_slots h' = recipes_slots h
  /\ recipes_slots_base h' = recipes_slots_base h
  /\ forall other, other <> name ->
       recipes h' !! other = recipes h !! other
       /\ recipes_base h' !! other = recipes_base h !! other.
Proof.
  intros h'. unfold h', processRecipe.
  destruct (getConfig ctx name) as [config |]; [| by split_and!].
  destruct (processCompound_sameRecipeMaps name config
              (fun cv => processAtomic ctx (VObj (css cv)))
              (recipeVariantsAndBase ctx name config variants h))
    as (Hr & Hb & Hs & Hsb); [intros; apply processAtomic_sameRecipeMaps |].
  destruct (recipes_recipeVariantsAndBase ctx name config variants h)
    as (Hrec & Hslots & Hslotsb & Hother & _).
  rewrite Hr, Hb, Hs, Hsb, Hrec, Hslots, Hslotsb.
  split_and!; try done.
  intros other Hne. split; [| by apply Hother].
  unfold hashInto. by rewrite lookup_insert_ne.
Qed.

Lemma processRecipe_isolated_witness :
  recipes (processRecipe Samples.collector "button" []
             (processRecipe Samples.collector "card" [] fresh)) !! "card"
  = recipes (processRecipe Samples.collector "card" [] fresh) !! "card".
Proof.
  apply (processRecipe_isolated Samples.collector "button" []
           (processRecipe Samples.collector "card" [] fresh)).
  discriminate.
Defined.

(** X8. [isEmpty()] holds exactly of the registries of a new factory, and
    so of a fork; after [processRecipe] of a known recipe it never holds,
    even when no style was hashed, since the name is then a key of
    [recipes]. *)
Theorem isEmpty_exactly_fresh (ctx : CollectorContext) :
  (forall h, isEmpty h = true <-> h = fresh)
  /\ (forall h, isEmpty (fork h) = true)
  /\ (forall name config variants h,
         getConfig ctx name = Some config ->
         isEmpty (processRecipe ctx name variants h) = false).
Proof.
  split_and!.
  - intros h. split.
    + unfold isEmpty. rewrite !andb_true_iff, !Nat.eqb_eq.
      intros (((((Ha & Hr) & Hs) & Hc) & Hb) & Hsb).
      apply size_empty_iff in Ha. apply size_empty_iff in Hc.
      apply map_size_empty_iff in Hr, Hs, Hb, Hsb.
      apply leibniz_equiv in Ha. apply leibniz_equiv in Hc.
      apply registries_eq; [done | done |]. by repeat split.
    + intros ->. reflexivity.
  - reflexivity.
  - intros name config variants h Hcfg.
    assert (Hkey : is_Some (recipes (processRecipe ctx name variants h) !! name)).
    { rewrite (processRecipe_known _ _ _ _ _ Hcfg).
      destruct (processCompound_sameRecipeMaps name config
                  (fun cv => processAtomic ctx (VObj (css cv)))
                  (recipeVariantsAndBase ctx name config variants h))
        as (Hr & _); [intros; apply processAtomic_sameRecipeMaps |].
      rewrite Hr.
      destruct (recipes_recipeVariantsAndBase ctx name config variants h) as (-> & _).
      unfold hashInto. rewrite lookup_insert_eq. by eexists. }
    assert (Hsize : size (recipes (processRecipe ctx name variants h)) <> 0).
    { apply map_size_ne_0_lookup. by exists name. }
    unfold isEmpty. apply Nat.eqb_neq in Hsize. rewrite Hsize.
    by rewrite andb_false_r.
Qed.

Lemma isEmpty_exactly_fresh_witness :
  isEmpty (processRecipe Samples.collector "card" [] fresh) = false.
Proof.
  apply (proj2 (proj2 (isEmpty_exactly_fresh Samples.collector)) "card" Samples.card).
  reflexivity.
Defined.

(** ** Slot recipes *)

Lemma has_mono (m m' : gmap string (gset string)) (k : string) :
  mapGrows m m' -> has m k = true -> has m' k = true.
Proof.
  unfold has. intros Hg Hk. destruct (m !! k) as [s |] eqn:Hm; [| discriminate].
  destruct (Hg k s Hm) as (s' & -> & _). reflexivity.
Qed.

Lemma processSlot_base_done (ctx : CollectorContext) (name : string) (config : RecipeConfig)
    (styles : Dict) (h : Registries) (s : string) :
  slotBasesDone ctx name config [s] (recipes_slots_base (processSlot ctx name config styles h s)).
Proof.
  intros s' b slotBase Hin Hb Hget Htruthy. apply list_elem_of_singleton in Hin. subst s'.
  unfold processSlot. rewrite Hb, Hget, Htruthy. cbn [andb recipes_slots_base set_recipes_slots].
  destruct (has (recipes_slots_base h) (getSlotKey ctx name s)) eqn:Hhas; cbn [negb].
  - exact Hhas.
  - cbn [recipes_slots_base set_recipes_slots_base]. unfold has, hashInto.
    by rewrite lookup_insert_eq.
Qed.

Lemma processSlots_base_done (ctx : CollectorContext) (name : string) (config : RecipeConfig)
    (styles : Dict) (ss : list string) :
  forall h,
    slotBasesDone ctx name config ss
      (recipes_slots_base (fold_left (processSlot ctx name config styles) ss h)).
Proof.
  induction ss as [| s ss IH]; intros h s' b slotBase Hin Hb Hget Htruthy.
  - by apply elem_of_nil in Hin.
  - cbn [fold_left]. apply elem_of_cons in Hin. destruct Hin as [-> | Hin].
    + eapply has_mono.
      * apply (fold_left_grows (processSlot ctx name config styles) ss).
        intros; apply processSlot_grows.
      * eapply processSlot_base_done; eauto. by apply list_elem_of_singleton.
    + eapply IH; eauto.
Qed.

Lemma processSlots_base_kept (ctx : CollectorContext) (name : string) (config : RecipeConfig)
    (styles : Dict) (ss : list string) :
  forall h,
    slotBasesDone ctx name config ss (recipes_slots_base h) ->
    recipes_slots_base (fold_left (processSlot ctx name config styles) ss h)
    = recipes_slots_base h.
Proof.
  induction ss as [| s ss IH]; intros h Hdone; [reflexivity |].
  cbn [fold_left].
  assert (Hstep : recipes_slots_base (processSlot ctx name config styles h s)
                  = recipes_slots_base h).
  { unfold processSlot.
    destruct (base config) as [b |] eqn:Hb; [| reflexivity].
    destruct (obj_get s b) as [slotBase |] eqn:Hget; [| reflexivity].
    destruct (truthy slotBase) eqn:Htruthy; [| reflexivity].
    cbn [recipes_slots_base set_recipes_slots].
    rewrite (Hdone s b slotBase (list_elem_of_here _ _) Hb Hget Htruthy).
    reflexivity. }
  rewrite IH; [exact Hstep |].
  rewrite Hstep. intros s' b slotBase Hin. apply Hdone. by apply list_elem_of_further.
Qed.

Lemma processSlotRecipe_slots_base (ctx : CollectorContext) (name : string)
    (config : RecipeConfig) (variants : Dict) (h : Registries) :
  getConfig ctx name = Some config ->
  recipes_slots_base (processSlotRecipe ctx name variants h)
  = recipes_slots_base
      (fold_left (processSlot ctx name config (mergeVariants config variants))
         (slots config) h).
Proof.
  intros Hcfg. rewrite (processSlotRecipe_known _ _ _ _ _ Hcfg).
  apply processCompound_sameRecipeMaps. intros cv h'.
  apply (fold_left_invariant (fun h'' => sameRecipeMaps h'' h')).
  - by repeat split.
  - intros h'' styles (A & B & C & D). by repeat split.
Qed.

(** X9. The base styles of the slots of a slot recipe are atomized once:
    after a [processSlotRecipe] call for a name, no later call for the name,
    whatever the selections, changes [recipes_slots_base]. *)
Theorem slot_bases_atomized_once (ctx : CollectorContext) (name : string)
    (first : Dict) (later : list Dict) (h : Registries) :
  let h1 := processSlotRecipe ctx name first h in
  recipes_slots_base
    (fold_left (fun h' variants => processSlotRecipe ctx name variants h') later h1)
  = recipes_slots_base h1.
Proof.
  intros h1.
  destruct (getConfig ctx name) as [config |] eqn:Hcfg.
  2: { apply (fold_left_invariant
                (fun h' => recipes_slots_base h' = recipes_slots_base h1)); [done |].
       intros h' v Hh'. unfold processSlotRecipe. by rewrite Hcfg. }
  assert (Hdone : slotBasesDone ctx name config (slots config) (recipes_slots_base h1)).
  { unfold h1. rewrite (processSlotRecipe_slots_base _ _ _ _ _ Hcfg).
    apply processSlots_base_done. }
  apply (fold_left_invariant
           (fun h' => recipes_slots_base h' = recipes_slots_base h1)); [done |].
  intros h' variants Hh'.
  rewrite (processSlotRecipe_slots_base _ _ _ _ _ Hcfg).
  rewrite processSlots_base_kept; [exact Hh' |]. by rewrite Hh'.
Qed.

(** ** Style props *)

Lemma filterProps_filter (valid : string -> bool) (props : Dict) :
  forall clone,
    filterProps valid props clone
    = filterProps valid
        (List.filter (fun kv => valid kv.1 && negb (isUndefined kv.2)) props)
        clone.
Proof.
  induction props as [| [k v] props IH]; intros clone; [reflexivity |].
  cbn [filterProps List.filter fst snd].
  destruct (valid k) eqn:Hvalid; cbn [andb].
  - destruct v; cbn [isUndefined negb filterProps]; rewrite ?Hvalid; apply IH.
  - destruct v; apply IH.
Qed.

(** X10. Outside the template-literal syntax, [processStyleProps] sees only
    the props whose key is a valid property and whose value is not
    [undefined]: the other props can be removed without changing the
    result, and props that are all invalid or [undefined] leave every
    registry as it was. *)
Theorem processStyleProps_ignores_invalid (ctx : CollectorContext) (props : Dict)
    (h : Registries) :
  isTemplateLiteralSyntax ctx = false ->
  processStyleProps ctx props h
  = processStyleProps ctx
      (List.filter
         (fun kv => isValidProperty ctx kv.1 && negb (isUndefined kv.2)) props)
      h
  /\ (Forall (fun kv => isValidProperty ctx kv.1 = false \/ kv.2 = VUndef) props ->
      processStyleProps ctx props h = h).
Proof.
  intros Hsyntax.
  assert (Hfilter : filterStyleProps ctx props
    = filterStyleProps ctx
        (List.filter
           (fun kv => isValidProperty ctx kv.1 && negb (isUndefined kv.2)) props)).
  { unfold filterStyleProps. rewrite Hsyntax. apply filterProps_filter. }
  split.
  - unfold processStyleProps. by rewrite Hfilter.
  - intros Hnone.
    assert (Hnil : List.filter
      (fun kv => isValidProperty ctx kv.1 && negb (isUndefined kv.2)) props = []).
    { clear Hfilter. induction Hnone as [| [k v] props' Hkv _ IH]; [reflexivity |].
      cbn [List.filter fst snd] in *.
      destruct Hkv as [-> | ->]; [exact IH |].
      cbn [isUndefined negb]. rewrite andb_false_r. exact IH. }
    unfold processStyleProps. rewrite Hfilter, Hnil.
    unfold filterStyleProps. rewrite Hsyntax. cbn [filterProps obj_get].
    apply processAtomic_empty.
Qed.

Lemma processStyleProps_ignores_invalid_witness :
  processStyleProps Samples.collector [("onClick", VStr "handler"); ("color", VUndef)] fresh
  = fresh.
Proof.
  apply (proj2 (processStyleProps_ignores_invalid Samples.collector
                  [("onClick", VStr "handler"); ("color", VUndef)] fresh eq_refl)).
  constructor; [left; reflexivity |].
  constructor; [right; reflexivity | constructor].
Defined.

(** ** The exhaustive entry points *)

Lemma fold_left_flat_map {A B C : Type} (f : A -> C -> A) (g : B -> list C) (l : list B) (a : A) :
  fold_left f (flat_map g l) a = fold_left (fun a' x => fold_left f (g x) a') l a.
Proof.
  revert a. induction l as [| x l IH]; intros a; simpl; [reflexivity |].
  rewrite fold_left_app. apply IH.
Qed.

Lemma processAtomicRecipe_blocks (ctx : CollectorContext) (recipe : AtomicRecipe)
    (h : Registries) :
  processAtomicRecipe ctx recipe h
  = fold_left (fun h' block => processAtomic ctx block h') (atomicRecipeBlocks recipe) h.
Proof.
  unfold processAtomicRecipe, atomicRecipeBlocks.
  rewrite !fold_left_app, fold_left_flat_map, fold_left_map_arg. reflexivity.
Qed.

(** X11. [processAtomicRecipe] changes [atomic] only: a hash is in [atomic]
    afterwards exactly when it was there before or is a hash of the base,
    of the styles of some value of some variant, or of the [css] of some
    compound variant; [compound_variants] and the recipe maps are left as
    they are, also by [processAtomicSlotRecipe]. *)
Theorem processAtomicRecipe_atomic_only (ctx : CollectorContext) (h : Registries) :
  (forall recipe,
      let h' := processAtomicRecipe ctx recipe h in
      compound_variants h' = compound_variants h
      /\ sameRecipeMaps h' h
      /\ forall x,
           x ∈ atomic h'
           <-> x ∈ atomic h
               \/ exists block,
                    block ∈ atomicRecipeBlocks recipe
                    /\ x ∈ hashStyleObject ctx ∅ block noBase)
  /\ (forall slots,
         let h' := processAtomicSlotRecipe ctx slots h in
         compound_variants h' = compound_variants h /\ sameRecipeMaps h' h).
Proof.
  split.
  - intros recipe h'. unfold h'. rewrite processAtomicRecipe_blocks.
    destruct (atomizing_blocks ctx (atomicRecipeBlocks recipe) h) as (Ha & Hc & Hm).
    split_and!; [exact Hc | exact Hm |].
    intros x. rewrite Ha. apply atomizeAll_elem.
  - intros slots h'. unfold h', processAtomicSlotRecipe.
    apply (fold_left_invariant
             (fun h0 => compound_variants h0 = compound_variants h /\ sameRecipeMaps h0 h)).
    + by repeat split.
    + intros h0 slotRecipe (Hc & A & B & C & D).
      rewrite processAtomicRecipe_blocks.
      destruct (atomizing_blocks ctx (atomicRecipeBlocks slotRecipe.2) h0)
        as (_ & Hc' & A' & B' & C' & D').
      unfold sameRecipeMaps. split_and!; congruence.
Qed.

(** * Further properties of the builder *)

(** ** [setup] by cases *)

Lemma setup_cases (env : Env) (opt_configPath opt_cwd : option string) (w : World)
    (b : BuilderState) (configPath : string) :
  setupConfigPath env opt_configPath = Some configPath ->
  let deps := setupConfigDeps env configPath opt_cwd b in
  setup env opt_configPath opt_cwd w b
  = if anyStale env (recordedDeps w configPath) deps then
      match loadConfigAndCreateContext env configPath with
      | Some i =>
          mkOutcome
            (mkWorld
               (<[ configPath :=
                     mkConfigData (mkCtx (next_ctx w) i) (setOf [] (dependencies i))
                       (Some (scanDeps env (recordedDeps w configPath) deps ∅ false).1) ]>
                  (configCache w))
               (<[ next_ctx w := mkContent ∅ ∅ ]> (contentFilesCache w))
               (S (next_ctx w))
               (trace w ++ map InvalidateRequireCache deps
                  ++ [LoadConfig configPath; CallHookConfigChange (next_ctx w);
                      ReloadSourceFiles (next_ctx w)]))
            (mkBuilder (Some (mkCtx (next_ctx w) i)) (hasEmitted b) deps true) None
      | None =>
          mkOutcome
            (mkWorld (configCache w) (contentFilesCache w) (next_ctx w)
               (trace w ++ map InvalidateRequireCache deps ++ [LoadConfig configPath]))
            (mkBuilder (context b) (hasEmitted b) deps true) (Some LoadFailed)
      end
    else
      match configCache w !! configPath with
      | Some cache =>
          mkOutcome (log (ReloadSourceFiles (ctx_id (cd_context cache))) w)
            (mkBuilder (Some (cd_context cache)) (hasEmitted b) deps false) None
      | None =>
          match loadConfigAndCreateContext env configPath with
          | Some i =>
              mkOutcome
                (mkWorld
                   (<[ configPath :=
                         mkConfigData (mkCtx (next_ctx w) i) (setOf [] (dependencies i))
                           None ]> (configCache w))
                   (<[ next_ctx w := mkContent ∅ ∅ ]> (contentFilesCache w))
                   (S (next_ctx w))
                   (trace w ++ [LoadConfig configPath]))
                (mkBuilder (Some (mkCtx (next_ctx w) i)) (hasEmitted b) deps false) None
          | None =>
              mkOutcome
                (mkWorld (configCache w) (contentFilesCache w) (next_ctx w)
                   (trace w ++ [LoadConfig configPath]))
                (mkBuilder (context b) (hasEmitted b) deps false) (Some LoadFailed)
          end
      end.
Proof.
  intros Hpath deps. unfold setup. rewrite Hpath. fold deps.
  rewrite checkConfigDeps_cases.
  destruct (anyStale env (recordedDeps w configPath) deps).
  - destruct (invalidate_all deps w) as (H1 & H2 & H3 & H4).
    set (w1 := fold_left (fun w0 file => log (InvalidateRequireCache file) w0) deps w) in *.
    unfold reloadModified, setupContext. simpl_world.
    destruct (loadConfigAndCreateContext env configPath) as [i |]; simpl_world.
    + rewrite lookup_insert_eq. simpl_world.
      rewrite H1, H2, H3, H4. by rewrite <- !app_assoc.
    + rewrite H1, H2, H3, H4. by rewrite <- !app_assoc.
  - unfold reloadModified. simpl_world.
    destruct (configCache w !! configPath) as [cache |] eqn:Hcache; [reflexivity |].
    unfold setupContext, recordedDeps. rewrite Hcache. simpl_world.
    destruct (loadConfigAndCreateContext env configPath); reflexivity.
Qed.

(** ** The caches stay consistent *)

Lemma consistent_same_caches (w w' : World) :
  configCache w' = configCache w ->
  contentFilesCache w' = contentFilesCache w ->
  next_ctx w' = next_ctx w ->
  consistent w -> consistent w'.
Proof. unfold consistent. intros -> -> ->. done. Qed.

Lemma consistent_new_context (w : World) (configPath : string) (i : ContextInfo)
    (ds : list string) (dm : option (gmap string Z)) (d : ContentData) (tr : list Event) :
  consistent w ->
  consistent
    (mkWorld (<[ configPath := mkConfigData (mkCtx (next_ctx w) i) ds dm ]> (configCache w))
       (<[ next_ctx w := d ]> (contentFilesCache w)) (S (next_ctx w)) tr).
Proof.
  intros [Hcfg Hids]. split; simpl_world.
  - intros p c Hp. destruct (decide (configPath = p)) as [-> | Hne].
    + rewrite lookup_insert_eq in Hp. injection Hp as <-. simpl_world.
      rewrite lookup_insert_eq. by eexists.
    + rewrite lookup_insert_ne in Hp by done.
      destruct (decide (next_ctx w = ctx_id (cd_context c))) as [-> | Hne'].
      * rewrite lookup_insert_eq. by eexists.
      * rewrite lookup_insert_ne by done. by apply (Hcfg p).
  - intros id Hid. destruct (decide (next_ctx w = id)) as [<- | Hne]; [lia |].
    rewrite lookup_insert_ne in Hid by done. apply Hids in Hid. lia.
Qed.

Lemma consistent_set_content (w : World) (c : PandaContext) (d : ContentData) :
  is_Some (contentFilesCache w !! ctx_id c) ->
  consistent w -> consistent (set_content c d w).
Proof.
  intros Hc [Hcfg Hids]. split; simpl_world.
  - intros p c' Hp.
    destruct (decide (ctx_id c = ctx_id (cd_context c'))) as [<- | Hne].
    + rewrite lookup_insert_eq. by eexists.
    + rewrite lookup_insert_ne by done. by apply (Hcfg p).
  - intros id Hid. destruct (decide (ctx_id c = id)) as [<- | Hne]; [by apply Hids |].
    rewrite lookup_insert_ne in Hid by done. by apply Hids.
Qed.

Lemma extractFile_consistent (env : Env) (c : PandaContext) (file : string) (w : World) :
  consistent w -> consistent (extractFile env c c file w).
Proof.
  intros Hw. destruct (contentFilesCache w !! ctx_id c) as [d |] eqn:Hd.
  - rewrite (extractFile_eq env c file w d Hd).
    destruct (bool_decide _); [exact Hw |].
    destruct (extracted env c file) as [css |].
    + apply consistent_set_content; simpl_world; [by eexists |].
      by apply (consistent_same_caches w).
    + by apply (consistent_same_caches w).
  - unfold extractFile. by rewrite Hd.
Qed.

(** X12. The caches stay consistent: if every context held by the config
    cache has its content data and every context with content data was
    created before, the same holds after [setup], [extract] and [emit],
    whatever their outcome; it holds of the empty caches.  (So the content
    data that [extractFile] reads through the current context is there
    whenever the context came from [setup].) *)
Theorem caches_stay_consistent :
  consistent emptyWorld
  /\ (forall env opt_configPath opt_cwd w b,
         consistent w -> consistent (world (setup env opt_configPath opt_cwd w b)))
  /\ (forall env w b, consistent w -> consistent (world (extract env w b)))
  /\ (forall w b, consistent w -> consistent (world (emit w b))).
Proof.
  split_and!.
  - split; unfold emptyWorld; simpl_world.
    + intros p c Hp. by rewrite lookup_empty in Hp.
    + intros id [d Hd]. by rewrite lookup_empty in Hd.
  - intros env opt_configPath opt_cwd w b Hw.
    destruct (setupConfigPath env opt_configPath) as [configPath |] eqn:Hpath.
    2: { unfold setup. by rewrite Hpath. }
    rewrite (setup_cases env opt_configPath opt_cwd w b configPath Hpath).
    destruct (anyStale _ _ _).
    + destruct (loadConfigAndCreateContext env configPath); simpl_world.
      * by apply consistent_new_context.
      * by apply (consistent_same_caches w).
    + destruct (configCache w !! configPath).
      * by apply (consistent_same_caches w).
      * destruct (loadConfigAndCreateContext env configPath); simpl_world.
        -- by apply consistent_new_context.
        -- by apply (consistent_same_caches w).
  - intros env w b Hw. unfold extract.
    destruct (context b) as [c |]; simpl_world; [| exact Hw].
    unfold extractFiles.
    apply (fold_left_invariant consistent); [exact Hw |].
    intros w' file Hw'. by apply extractFile_consistent.
  - intros w b Hw. unfold emit.
    destruct (hasEmitted b && hasConfigChanged b); [| exact Hw].
    destruct (context b); [| exact Hw].
    by apply (consistent_same_caches w).
Qed.

Lemma caches_stay_consistent_witness :
  consistent (world Samples.afterSetup).
Proof.
  apply (proj1 (proj2 caches_stay_consistent) Samples.env None None emptyWorld newBuilder).
  apply (proj1 caches_stay_consistent).
Defined.

(** ** What [setup] leaves behind *)

(** X13. After a [setup()] that returns, the builder holds a context, the
    config cache holds that context under the configuration path, and the
    content cache holds data for it; when the configuration was loaded, the
    context is a new one and its content data is empty, so that every file
    is extracted again. *)
Theorem setup_success (env : Env) (opt_configPath opt_cwd : option string) (w : World)
    (b : BuilderState) (configPath : string) :
  setupConfigPath env opt_configPath = Some configPath ->
  consistent w ->
  let o := setup env opt_configPath opt_cwd w b in
  thrown o = None ->
  exists c d,
    context (builder o) = Some c
    /\ cd_context <$> configCache (world o) !! configPath = Some c
    /\ contentFilesCache (world o) !! ctx_id c = Some d
    /\ (LoadConfig configPath ∈ callsSince w (world o) ->
        d = mkContent ∅ ∅ /\ ctx_id c = next_ctx w).
Proof.
  intros Hpath [Hcfg _] o. unfold o.
  rewrite (setup_cases env opt_configPath opt_cwd w b configPath Hpath).
  destruct (anyStale _ _ _).
  - destruct (loadConfigAndCreateContext env configPath) as [i |]; simpl_world; [| done].
    intros _. exists (mkCtx (next_ctx w) i), (mkContent ∅ ∅). simpl_world.
    rewrite !lookup_insert_eq. by split_and!.
  - destruct (configCache w !! configPath) as [cache |] eqn:Hcache.
    + simpl_world. intros _.
      destruct (Hcfg configPath cache Hcache) as [d Hd].
      exists (cd_context cache), d. rewrite Hcache. split_and!; try done.
      erewrite callsSince_app by (simpl_world; reflexivity).
      intros Hin. apply list_elem_of_singleton in Hin. discriminate.
    + destruct (loadConfigAndCreateContext env configPath) as [i |]; simpl_world; [| done].
      intros _. exists (mkCtx (next_ctx w) i), (mkContent ∅ ∅). simpl_world.
      rewrite !lookup_insert_eq. by split_and!.
Qed.

Lemma setup_success_witness :
  exists c d,
    context (builder Samples.afterSetup) = Some c
    /\ cd_context <$> configCache (world Samples.afterSetup) !! "panda.config.ts" = Some c
    /\ contentFilesCache (world Samples.afterSetup) !! ctx_id c = Some d
    /\ (LoadConfig "panda.config.ts" ∈ callsSince emptyWorld (world Samples.afterSetup) ->
        d = mkContent ∅ ∅ /\ ctx_id c = next_ctx emptyWorld).
Proof.
  apply (setup_success Samples.env None None emptyWorld newBuilder "panda.config.ts" eq_refl).
  - split; unfold emptyWorld; simpl_world.
    + intros p c Hp. by rewrite lookup_empty in Hp.
    + intros id [d Hd]. by rewrite lookup_empty in Hd.
  - reflexivity.
Defined.

(** X14. The two failures of [setup()] that precede every change of the
    caches.  When no [configPath] is given and no configuration file is
    found, it throws [ConfigNotFoundError] with nothing changed.  When the
    configuration has to be loaded, because a dependency is stale or the
    path has no cache entry, and the loader rejects, it rejects with the
    caches and the context and [hasEmitted] of the builder as they were,
    [hasConfigChanged] being already set to what the dependency check
    found.  (The hook and [reloadSourceFiles], which run once the caches
    have been replaced, are taken to return.) *)
Theorem setup_failure (env : Env) (opt_configPath opt_cwd : option string) (w : World)
    (b : BuilderState) :
  let o := setup env opt_configPath opt_cwd w b in
  (opt_configPath = None -> getConfigPath env = None ->
   o = mkOutcome w b (Some ConfigNotFoundError))
  /\ (forall configPath,
         setupConfigPath env opt_configPath = Some configPath ->
         loadConfigAndCreateContext env configPath = None ->
         anyStale env (recordedDeps w configPath) (setupConfigDeps env configPath opt_cwd b)
           = true
         \/ configCache w !! configPath = None ->
         thrown o = Some LoadFailed
         /\ configCache (world o) = configCache w
         /\ contentFilesCache (world o) = contentFilesCache w
         /\ next_ctx (world o) = next_ctx w
         /\ context (builder o) = context b
         /\ hasEmitted (builder o) = hasEmitted b
         /\ LoadConfig configPath ∈ callsSince w (world o)
         /\ hasConfigChanged (builder o)
            = anyStale env (recordedDeps w configPath)
                (setupConfigDeps env configPath opt_cwd b)).
Proof.
  intros o. unfold o. split.
  - intros -> Hnone. unfold setup, setupConfigPath. by rewrite Hnone.
  - intros configPath Hpath Hload Hdue.
    rewrite (setup_cases env opt_configPath opt_cwd w b configPath Hpath), Hload.
    destruct (anyStale _ _ _) eqn:Hstale.
    + simpl_world. split_and!; try done.
      erewrite callsSince_app by (simpl_world; reflexivity). set_solver.
    + destruct Hdue as [? | Hnone]; [done |]. rewrite Hnone.
      simpl_world. split_and!; try done.
      erewrite callsSince_app by (simpl_world; reflexivity). set_solver.
Qed.

Lemma setup_failure_witness :
  setup Samples.envWithoutConfig None None emptyWorld newBuilder
  = mkOutcome emptyWorld newBuilder (Some ConfigNotFoundError)
  /\ thrown (setup Samples.envBroken None None
               (world Samples.afterSetup) (builder Samples.afterSetup)) = Some LoadFailed
  /\ context (builder (setup Samples.envBroken None None
                         (world Samples.afterSetup) (builder Samples.afterSetup)))
     = context (builder Samples.afterSetup).
Proof.
  split.
  - apply (proj1 (setup_failure Samples.envWithoutConfig None None emptyWorld newBuilder));
      reflexivity.
  - destruct (proj2 (setup_failure Samples.envBroken None None
                       (world Samples.afterSetup) (builder Samples.afterSetup))
                "panda.config.ts" eq_refl eq_refl (or_introl eq_refl))
      as (Hthrown & _ & _ & _ & Hctx & _).
    by split.
Defined.

(** ** The dependency snapshot *)

Lemma scanDeps_snapshot (env : Env) (prev : option (gmap string Z)) (deps : list string) :
  forall (newModified : gmap string Z) (modified : bool) (file : string),
    (scanDeps env prev deps newModified modified).1 !! file
    = match (if bool_decide (file ∈ deps) then statSync env file else None) with
      | Some time => Some time
      | None => newModified !! file
      end.
Proof.
  induction deps as [| x deps IH]; intros newModified modified file.
  - cbn [scanDeps fst]. rewrite bool_decide_eq_false_2 by apply not_elem_of_nil. reflexivity.
  - cbn [scanDeps].
    destruct (decide (file = x)) as [-> | Hne].
    + rewrite (bool_decide_eq_true_2 (x ∈ x :: deps)) by apply list_elem_of_here.
      destruct (statSync env x) as [time |] eqn:Hstat; rewrite IH.
      * rewrite Hstat, lookup_insert_eq. by destruct (bool_decide (x ∈ deps)).
      * rewrite Hstat. by destruct (bool_decide (x ∈ deps)).
    + assert (Hmem : bool_decide (file ∈ x :: deps) = bool_decide (file ∈ deps)).
      { apply bool_decide_ext. rewrite elem_of_cons. naive_solver. }
      rewrite Hmem.
      destruct (statSync env x) as [time |]; rewrite IH; [| reflexivity].
      by rewrite lookup_insert_ne.
Qed.

(** X15. When [checkConfigDeps] reports a modification, the snapshot it
    returns holds exactly the dependency files that are on disk, each with
    its current modification time; when it reports none, it returns the
    snapshot recorded before, as it is, and invalidates nothing. *)
Theorem checkConfigDeps_snapshot (env : Env) (configPath : string) (deps : list string)
    (w : World) :
  let r := checkConfigDeps env configPath deps w in
  (isModified r.1 = true ->
   exists snapshot,
     modifiedMap r.1 = Some snapshot
     /\ forall file,
          snapshot !! file = if bool_decide (file ∈ deps) then statSync env file else None)
  /\ (isModified r.1 = false ->
      modifiedMap r.1 = recordedDeps w configPath /\ r.2 = w).
Proof.
  intros r. unfold r. rewrite checkConfigDeps_cases.
  destruct (anyStale env (recordedDeps w configPath) deps); cbn [fst snd isModified modifiedMap].
  - split; [| done]. intros _. eexists. split; [reflexivity |].
    intros file. rewrite scanDeps_snapshot, lookup_empty.
    by destruct (if bool_decide (file ∈ deps) then statSync env file else None).
  - split; [done |]. by intros _.
Qed.

Lemma checkConfigDeps_snapshot_witness :
  exists snapshot,
    modifiedMap (checkConfigDeps Samples.env "panda.config.ts" ["panda.config.ts"; "gone.ts"]
                   emptyWorld).1 = Some snapshot
    /\ forall file,
         snapshot !! file
         = if bool_decide (file ∈ ["panda.config.ts"; "gone.ts"])
           then statSync Samples.env file else None.
Proof.
  apply (checkConfigDeps_snapshot Samples.env "panda.config.ts"
           ["panda.config.ts"; "gone.ts"] emptyWorld).
  reflexivity.
Defined.

Lemma existsb_none {A : Type} (f : A -> bool) (l : list A) :
  (forall x, x ∈ l -> f x = false) -> existsb f l = false.
Proof.
  induction l as [| x l IH]; intros Hall; [reflexivity |]. cbn [existsb].
  rewrite (Hall x (list_elem_of_here _ _)). apply IH.
  intros y Hy. apply Hall. by apply list_elem_of_further.
Qed.

(** X16. After a [setup()] that found the configuration modified and loaded
    it, a later [setup()] for the same path reuses the cached context
    without loading anything, provided every dependency file it finds on
    disk was among the dependencies of the first and is not newer than it
    was then.  (A file whose time went back does not count as modified.) *)
Theorem setup_reuses_after_load (env env' : Env) (opt_configPath opt_cwd opt_cwd' : option string)
    (w : World) (b b' : BuilderState) (configPath : string) (i : ContextInfo) :
  setupConfigPath env opt_configPath = Some configPath ->
  anyStale env (recordedDeps w configPath) (setupConfigDeps env configPath opt_cwd b) = true ->
  loadConfigAndCreateContext env configPath = Some i ->
  (forall file time',
      file ∈ setupConfigDeps env' configPath opt_cwd' b' ->
      statSync env' file = Some time' ->
      file ∈ setupConfigDeps env configPath opt_cwd b
      /\ exists time, statSync env file = Some time /\ (time' <= time)%Z) ->
  let o := setup env opt_configPath opt_cwd w b in
  let o' := setup env' (Some configPath) opt_cwd' (world o) b' in
  thrown o' = None
  /\ context (builder o') = context (builder o)
  /\ hasConfigChanged (builder o') = false
  /\ callsSince (world o) (world o') = [ReloadSourceFiles (next_ctx w)]
  /\ configCache (world o') = configCache (world o)
  /\ contentFilesCache (world o') = contentFilesCache (world o).
Proof.
  intros Hpath Hstale Hload Hdeps o o'.
  assert (Ho : o = _) by apply (setup_cases env opt_configPath opt_cwd w b configPath Hpath).
  cbv zeta in Ho. rewrite Hstale, Hload in Ho.
  assert (Hrec : recordedDeps (world o) configPath
    = Some (scanDeps env (recordedDeps w configPath)
              (setupConfigDeps env configPath opt_cwd b) ∅ false).1).
  { rewrite Ho. unfold recordedDeps at 1. simpl_world. by rewrite lookup_insert_eq. }
  assert (Hfresh : anyStale env' (recordedDeps (world o) configPath)
                     (setupConfigDeps env' configPath opt_cwd' b') = false).
  { apply existsb_none. intros file Hin. unfold isStale. rewrite Hrec.
    destruct (statSync env' file) as [time' |] eqn:Hstat; [| reflexivity].
    destruct (Hdeps file time' Hin Hstat) as (Hin0 & time & Hstat0 & Hle).
    rewrite scanDeps_snapshot, (bool_decide_eq_true_2 _ Hin0), Hstat0.
    apply Z.ltb_ge, Hle. }
  unfold o'.
  rewrite (setup_cases env' (Some configPath) opt_cwd' (world o) b' configPath eq_refl).
  rewrite Hfresh.
  assert (Hcache : configCache (world o) !! configPath
    = Some (mkConfigData (mkCtx (next_ctx w) i) (setOf [] (dependencies i))
              (Some (scanDeps env (recordedDeps w configPath)
                       (setupConfigDeps env configPath opt_cwd b) ∅ false).1))).
  { rewrite Ho. simpl_world. by rewrite lookup_insert_eq. }
  rewrite Hcache. simpl_world.
  split_and!; try done.
  - by rewrite Ho.
  - by erewrite callsSince_app by (simpl_world; reflexivity).
Qed.

Lemma setup_reuses_after_load_witness :
  callsSince (world Samples.afterSetup)
    (world (setup Samples.env (Some "panda.config.ts") None
              (world Samples.afterSetup) (builder Samples.afterSetup)))
  = [ReloadSourceFiles 0].
Proof.
  apply (setup_reuses_after_load Samples.env Samples.env None None None emptyWorld
           newBuilder (builder Samples.afterSetup) "panda.config.ts"
           (mkInfo [] (Some "/app") ["src/App.tsx"; "src/Plain.tsx"]));
    try reflexivity.
  intros file time' Hin Hstat. vm_compute in Hin.
  apply list_elem_of_singleton in Hin. subst file. vm_compute in Hstat.
  split; [vm_compute; apply list_elem_of_here |].
  exists 100%Z. split; [reflexivity |]. injection Hstat as <-. lia.
Defined.

(** ** [emit] after [setup] *)

(** X17. Once an [emit()] has run on the builder, the [emit()] that follows
    a [setup()] that returned calls the artifact emitter, for the context
    that [setup()] left, exactly when that [setup()] found some dependency
    stale; it does not throw. *)
Theorem emit_after_setup (env : Env) (opt_configPath opt_cwd : option string) (w : World)
    (b : BuilderState) (configPath : string) :
  setupConfigPath env opt_configPath = Some configPath ->
  hasEmitted b = true ->
  let o := setup env opt_configPath opt_cwd w b in
  thrown o = None ->
  let o' := emit (world o) (builder o) in
  thrown o' = None
  /\ exists c,
       context (builder o) = Some c
       /\ callsSince (world o) (world o')
          = if anyStale env (recordedDeps w configPath)
                 (setupConfigDeps env configPath opt_cwd b)
            then [EmitArtifacts (ctx_id c)] else [].
Proof.
  intros Hpath Hemitted o. unfold o.
  rewrite (setup_cases env opt_configPath opt_cwd w b configPath Hpath).
  destruct (anyStale _ _ _).
  - destruct (loadConfigAndCreateContext env configPath) as [i |]; simpl_world; [| done].
    intros _. unfold emit. simpl_world. rewrite Hemitted. cbn [andb]. simpl_world.
    split; [done |]. eexists. split; [reflexivity |].
    by erewrite callsSince_app by (simpl_world; reflexivity).
  - destruct (configCache w !! configPath) as [cache |].
    + simpl_world. intros _. unfold emit. simpl_world. rewrite Hemitted. cbn [andb].
      simpl_world. split; [done |]. eexists. split; [reflexivity |].
      unfold callsSince. by rewrite drop_all.
    + destruct (loadConfigAndCreateContext env configPath) as [i |]; simpl_world; [| done].
      intros _. unfold emit. simpl_world. rewrite Hemitted. cbn [andb]. simpl_world.
      split; [done |]. eexists. split; [reflexivity |].
      unfold callsSince. simpl_world. by rewrite drop_all.
Qed.

Lemma emit_after_setup_witness :
  thrown
    (emit
       (world (setup Samples.envTouched None None (world Samples.afterSetup)
                 (mkBuilder (context (builder Samples.afterSetup)) true [] false)))
       (builder (setup Samples.envTouched None None (world Samples.afterSetup)
                   (mkBuilder (context (builder Samples.afterSetup)) true [] false))))
  = None.
Proof.
  apply (emit_after_setup Samples.envTouched None None (world Samples.afterSetup)
           (mkBuilder (context (builder Samples.afterSetup)) true [] false)
           "panda.config.ts"); reflexivity.
Defined.

(** ** What [extract] touches *)

Lemma extractFile_frame (env : Env) (c : PandaContext) (file : string) (w : World) :
  let w' := extractFile env c c file w in
  configCache w' = configCache w
  /\ next_ctx w' = next_ctx w
  /\ (forall id, id <> ctx_id c -> contentFilesCache w' !! id = contentFilesCache w !! id)
  /\ exists evs,
       trace w' = trace w ++ evs
       /\ Forall (fun e => e = ExtractFile (ctx_id c) file) evs.
Proof.
  intros w'. unfold w'.
  destruct (contentFilesCache w !! ctx_id c) as [d |] eqn:Hd.
  - rewrite (extractFile_eq env c file w d Hd).
    destruct (bool_decide _).
    + split_and!; try done. exists []. by rewrite app_nil_r.
    + destruct (extracted env c file) as [css |]; simpl_world.
      * split_and!; try done.
        -- intros id Hne. by rewrite lookup_insert_ne.
        -- eexists [_]. split; [reflexivity |]. by repeat constructor.
      * split_and!; try done. eexists [_]. split; [reflexivity |]. by repeat constructor.
  - unfold extractFile. rewrite Hd. split_and!; try done. exists []. by rewrite app_nil_r.
Qed.

Lemma extractFiles_frame (env : Env) (c : PandaContext) (files : list string) :
  forall w,
    let w' := extractFiles env c files w in
    configCache w' = configCache w
    /\ next_ctx w' = next_ctx w
    /\ (forall id, id <> ctx_id c -> contentFilesCache w' !! id = contentFilesCache w !! id)
    /\ exists evs,
         trace w' = trace w ++ evs
         /\ Forall (fun e => exists file, file ∈ files /\ e = ExtractFile (ctx_id c) file) evs.
Proof.
  induction files as [| file files IH]; intros w.
  - cbn. split_and!; try done. exists []. by rewrite app_nil_r.
  - cbn [extractFiles fold_left].
    change (fold_left (fun w' f => extractFile env c c f w') files (extractFile env c c file w))
      with (extractFiles env c files (extractFile env c c file w)).
    destruct (extractFile_frame env c file w) as (A1 & B1 & C1 & evs1 & T1 & F1).
    destruct (IH (extractFile env c c file w)) as (A2 & B2 & C2 & evs2 & T2 & F2).
    split_and!; [congruence | congruence | |].
    + intros id Hne. rewrite C2 by done. by apply C1.
    + exists (evs1 ++ evs2). split; [by rewrite T2, T1, app_assoc |].
      apply Forall_app. split.
      * eapply Forall_impl; [exact F1 |]. intros e ->. exists file.
        split; [apply list_elem_of_here | done].
      * eapply Forall_impl; [exact F2 |]. intros e (f & Hf & ->). exists f.
        split; [by apply list_elem_of_further | done].
Qed.

(** X18. [extract()] touches nothing but the content data of the current
    context: the builder's fields, the config cache and the content data of
    every other context are left as they are, and the only calls it makes
    are calls of the extractor on files the context reports.  Without a
    context it throws and does nothing. *)
Theorem extract_touches_current_content_only (env : Env) (w : World) (b : BuilderState) :
  let o := extract env w b in
  builder o = b
  /\ configCache (world o) = configCache w
  /\ next_ctx (world o) = next_ctx w
  /\ match context b with
     | Some c =>
         thrown o = None
         /\ (forall id, id <> ctx_id c ->
               contentFilesCache (world o) !! id = contentFilesCache w !! id)
         /\ Forall
              (fun e => exists file, file ∈ getFiles (info c) /\ e = ExtractFile (ctx_id c) file)
              (callsSince w (world o))
     | None => thrown o = Some ContextNotLoaded /\ world o = w
     end.
Proof.
  intros o. unfold o, extract.
  destruct (context b) as [c |]; simpl_world; [| by split_and!].
  destruct (extractFiles_frame env c (getFiles (info c)) w) as (A & B & C & evs & T & F).
  split_and!; try done.
  by rewrite (callsSince_app _ _ _ T).
Qed.

(** X19. Two [extract()] in a row, with no file touched in between: a file
    that yields CSS is not extracted the second time; a file that yields
    none and whose time was not recorded is extracted again, its time still
    not being recorded. *)
Theorem extract_again (env : Env) (w : World) (b : BuilderState)
    (c : PandaContext) (d : ContentData) (file : string) :
  context b = Some c ->
  contentFilesCache w !! ctx_id c = Some d ->
  file ∈ getFiles (info c) ->
  let o := extract env w b in
  let o' := extract env (world o) (builder o) in
  match extracted env c file with
  | Some css => ExtractFile (ctx_id c) file ∉ callsSince (world o) (world o')
  | None =>
      fileModifiedMap d !! file <> Some (mtimeOf env file) ->
      ExtractFile (ctx_id c) file ∈ callsSince (world o) (world o')
  end.
Proof.
  intros Hctx Hd Hin o o'. unfold o', o, extract. rewrite Hctx. simpl_world. rewrite Hctx.
  simpl_world.
  destruct (extractFiles_spec env c (getFiles (info c)) w d Hd)
    as (d1 & evs1 & Hd1 & T1 & H1).
  destruct (extractFiles_spec env c (getFiles (info c)) _ d1 Hd1)
    as (d2 & evs2 & Hd2 & T2 & H2).
  rewrite (callsSince_app _ _ _ T2).
  destruct (H1 file) as (HU1 & HD1 & HB1). destruct (H2 file) as (HU2 & HD2 & HB2).
  destruct (extracted env c file) as [css |] eqn:Hext.
  - apply HU2.
    destruct (decide (fileModifiedMap d !! file = Some (mtimeOf env file))) as [Hcur | Hold].
    + destruct (HU1 Hcur) as (_ & HM & _). by rewrite HM.
    + destruct (HB1 Hin Hold) as [_ Hcss]. by destruct (Hcss css eq_refl).
  - intros Hold. destruct (HD1 eq_refl) as [HM _].
    apply HB2; [exact Hin |]. by rewrite HM.
Qed.

Lemma extract_again_witness :
  ExtractFile 0 "src/App.tsx"
    ∉ callsSince
        (world (extract Samples.env (world Samples.afterSetup) (builder Samples.afterSetup)))
        (world (extract Samples.env
                  (world (extract Samples.env (world Samples.afterSetup)
                            (builder Samples.afterSetup)))
                  (builder (extract Samples.env (world Samples.afterSetup)
                              (builder Samples.afterSetup))))).
Proof.
  apply (extract_again Samples.env (world Samples.afterSetup) (builder Samples.afterSetup)
           (mkCtx 0 (mkInfo [] (Some "/app") ["src/App.tsx"; "src/Plain.tsx"]))
           (mkContent ∅ ∅) "src/App.tsx"); [reflexivity | reflexivity |].
  apply list_elem_of_here.
Defined.
